(** * split-to-chapters: page ranges, blank-page trimming and file names

    A shallow embedding of [split-to-chapters.py].  Python integers are
    unbounded and are modelled by [Z]; a Python [str] is a sequence of
    Unicode code points and is modelled by a list of code points ([N]).
    Operations that can raise return [option] (or an [outcome]), with
    [None] standing for the exception. *)

From Stdlib Require Import Ascii String.
From Stdlib Require Import List ZArith NArith Lia Bool.
Import ListNotations.
Local Open Scope Z_scope.

(** ** Python strings *)

Definition char : Type := N.
Definition pystr : Type := list char.

(** An ASCII literal as a Python string. *)
Definition str (s : string) : pystr :=
  map N_of_ascii (list_ascii_of_string s).

(** ** Chapter ranges *)

(** [(title, start_page)] as returned by [parse_toc]. *)
Abbreviation OutlineEntry := (pystr * Z)%type (only parsing).

Record ChapterRange : Type := mkChapterRange
  { title : pystr;
    start_page : Z;   (* 1-based page number from TOC *)
    end_page : Z      (* 1-based inclusive *) }.

(** The body of the [for idx, (title, start) in enumerate(toc_entries)] loop
    of [compute_ranges].  [todo] is what the iteration still has to visit,
    [idx] the position of its head, [ranges] the list built so far.  The
    subscript [toc_entries[idx + 1]] is a Python list access, which raises
    outside the list: that is the [None] of [nth_error]. *)
Fixpoint compute_ranges_loop (toc_entries : list OutlineEntry) (total_pages : Z)
    (idx : nat) (todo : list OutlineEntry) (ranges : list ChapterRange)
    : option (list ChapterRange) :=
  match todo with
  | [] => Some ranges
  | (title, start) :: todo' =>
      let computed :=
        if (idx + 1 <? length toc_entries)%nat
        then option_map (fun e => snd e - 1) (nth_error toc_entries (idx + 1))
        else Some total_pages in
      match computed with
      | None => None
      | Some end_ =>
          (* Guard against malformed TOC; clamp *)
          let end_ := if end_ <? start then start else end_ in
          compute_ranges_loop toc_entries total_pages (S idx) todo'
            (ranges ++ [mkChapterRange title start end_])
      end
  end.

Definition compute_ranges (toc_entries : list OutlineEntry) (total_pages : Z)
    : option (list ChapterRange) :=
  compute_ranges_loop toc_entries total_pages 0 toc_entries [].

(** The end page the loop computes before the clamp, as a function of the
    entries that follow. *)
Definition raw_end (following : list OutlineEntry) (total_pages : Z) : Z :=
  match following with
  | [] => total_pages
  | next :: _ => snd next - 1
  end.

Definition clamp_end (start end_ : Z) : Z :=
  if end_ <? start then start else end_.

(** The ranges of a suffix of the outline, by recursion on the suffix. *)
Fixpoint ranges_of (todo : list OutlineEntry) (total_pages : Z)
    : list ChapterRange :=
  match todo with
  | [] => []
  | (t, s) :: todo' =>
      mkChapterRange t s (clamp_end s (raw_end todo' total_pages))
        :: ranges_of todo' total_pages
  end.

(** Consecutive elements of a list are related by [R]. *)
Fixpoint consecutive {A : Type} (R : A -> A -> Prop) (l : list A) : Prop :=
  match l with
  | [] => True
  | x :: l' =>
      match l' with
      | [] => True
      | y :: _ => R x y /\ consecutive R l'
      end
  end.

Lemma nth_error_after {A : Type} (done : list A) (x : A) (todo : list A) :
  nth_error (done ++ x :: todo) (length done + 1) = nth_error todo 0.
Proof.
  induction done as [|d done IH]; simpl; [reflexivity | exact IH].
Qed.

Lemma compute_ranges_loop_cons (toc : list OutlineEntry) (total : Z)
    (idx : nat) (t : pystr) (s : Z) (todo : list OutlineEntry)
    (ranges : list ChapterRange) (e : Z) :
  (if (idx + 1 <? length toc)%nat
   then option_map (fun e : OutlineEntry => snd e - 1) (nth_error toc (idx + 1))
   else Some total) = Some e ->
  compute_ranges_loop toc total idx ((t, s) :: todo) ranges
  = compute_ranges_loop toc total (S idx) todo
      (ranges ++ [mkChapterRange t s (clamp_end s e)]).
Proof.
  intros He. cbn [compute_ranges_loop]. cbv zeta. rewrite He. reflexivity.
Qed.

Lemma compute_ranges_loop_spec (toc : list OutlineEntry) (total : Z) :
  forall todo done ranges,
    toc = done ++ todo ->
    compute_ranges_loop toc total (length done) todo ranges
    = Some (ranges ++ ranges_of todo total).
Proof.
  induction todo as [|[t s] todo IH]; intros done ranges Htoc.
  - cbn. now rewrite app_nil_r.
  - assert (Hlen : length toc = (length done + S (length todo))%nat)
      by (rewrite Htoc, length_app; reflexivity).
    assert (Hnext : nth_error toc (length done + 1) = nth_error todo 0)
      by (rewrite Htoc; apply nth_error_after).
    rewrite (compute_ranges_loop_cons toc total (length done) t s todo ranges
               (raw_end todo total)).
    + specialize (IH (done ++ [(t, s)]) (ranges ++ [mkChapterRange t s
                       (clamp_end s (raw_end todo total))])).
      rewrite length_app in IH; cbn [length] in IH.
      replace (length done + 1)%nat with (S (length done)) in IH by lia.
      rewrite IH by (rewrite Htoc, <- app_assoc; reflexivity).
      cbn [ranges_of]. now rewrite <- app_assoc.
    + rewrite Hnext. destruct todo as [|next todo']; cbn [length] in Hlen.
      * replace (length done + 1 <? length toc)%nat with false
          by (symmetry; apply Nat.ltb_ge; lia).
        reflexivity.
      * replace (length done + 1 <? length toc)%nat with true
          by (symmetry; apply Nat.ltb_lt; lia).
        reflexivity.
Qed.

Lemma compute_ranges_eq (toc : list OutlineEntry) (total : Z) :
  compute_ranges toc total = Some (ranges_of toc total).
Proof.
  unfold compute_ranges.
  exact (compute_ranges_loop_spec toc total toc [] [] eq_refl).
Qed.

Lemma ranges_of_length (toc : list OutlineEntry) (total : Z) :
  length (ranges_of toc total) = length toc.
Proof.
  induction toc as [|[t s] toc IH]; cbn [ranges_of length]; congruence.
Qed.

Lemma ranges_of_nth (total : Z) (t : pystr) (s : Z) (post : list OutlineEntry) :
  forall pre,
    nth_error (ranges_of (pre ++ (t, s) :: post) total) (length pre)
    = Some (mkChapterRange t s (clamp_end s (raw_end post total))).
Proof.
  induction pre as [|[t0 s0] pre IH]; [reflexivity | exact IH].
Qed.

Lemma ranges_of_starts (toc : list OutlineEntry) (total : Z) :
  map start_page (ranges_of toc total) = map snd toc.
Proof.
  induction toc as [|[t s] toc IH]; cbn [ranges_of map start_page snd];
    congruence.
Qed.

Lemma ranges_of_titles (toc : list OutlineEntry) (total : Z) :
  map title (ranges_of toc total) = map fst toc.
Proof.
  induction toc as [|[t s] toc IH]; cbn [ranges_of map title fst];
    congruence.
Qed.

Lemma clamp_end_ge (s e : Z) : s <= clamp_end s e.
Proof. unfold clamp_end. destruct (Z.ltb_spec e s); lia. Qed.

Lemma ranges_of_ordered (toc : list OutlineEntry) (total : Z) :
  Forall (fun r => start_page r <= end_page r) (ranges_of toc total).
Proof.
  induction toc as [|[t s] toc IH]; cbn [ranges_of]; constructor; auto.
  cbn [start_page end_page]. apply clamp_end_ge.
Qed.

Lemma ranges_of_bounded (toc : list OutlineEntry) (total : Z) :
  Forall (fun r => end_page r <= total) (ranges_of toc total)
  <-> Forall (fun e => snd e <= total) toc.
Proof.
  induction toc as [|[t s] toc IH]; cbn [ranges_of].
  - split; constructor.
  - split; intros H; inversion H as [|x l Hx Hl]; subst; constructor.
    + cbn [end_page] in Hx. cbn [snd]. pose proof (clamp_end_ge s (raw_end toc total)). lia.
    + now apply IH.
    + cbn [end_page snd] in *.
      unfold clamp_end. destruct (Z.ltb_spec (raw_end toc total) s); [lia|].
      destruct toc as [|[t' s'] toc']; cbn [raw_end snd]; [lia|].
      inversion Hl; subst. cbn [snd] in *. lia.
    + now apply IH.
Qed.

Lemma ranges_of_contiguity (toc : list OutlineEntry) (total : Z) :
  consecutive
    (fun r r' =>
       end_page r + 1 = start_page r' <-> start_page r < start_page r')
    (ranges_of toc total).
Proof.
  induction toc as [|[t s] toc IH]; [exact I|].
  destruct toc as [|[t' s'] toc']; [exact I|].
  cbn [ranges_of] in *. cbn [consecutive]. split; [|exact IH].
  cbn [start_page end_page raw_end snd]. unfold clamp_end.
  destruct (Z.ltb_spec (s' - 1) s); lia.
Qed.

(** *** Claims about [compute_ranges] *)

(** What the outline would have to satisfy for the ranges to tile the
    document: start pages strictly increasing, none beyond the last page. *)
Definition well_formed_outline (toc : list OutlineEntry) (total : Z) : Prop :=
  consecutive (fun e e' => snd e < snd e') toc
  /\ Forall (fun e => snd e <= total) toc.

(** The property the ranges are expected to have: every range lies inside
    the document and each range starts right after the previous one. *)
Definition tiles_document (ranges : list ChapterRange) (total : Z) : Prop :=
  Forall (fun r => start_page r <= end_page r <= total) ranges
  /\ consecutive (fun r r' => end_page r + 1 = start_page r') ranges.

Lemma consecutive_impl {A : Type} (R R' : A -> A -> Prop) (l : list A) :
  consecutive (fun x y => R x y -> R' x y) l ->
  consecutive R l -> consecutive R' l.
Proof.
  induction l as [|x l IH]; [trivial|].
  destruct l as [|y l]; [trivial|].
  intros [H1 H2] [H3 H4]. split; [exact (H1 H3) | exact (IH H2 H4)].
Qed.

Lemma consecutive_map {A B : Type} (f : A -> B) (R : B -> B -> Prop)
    (l : list A) :
  consecutive R (map f l) <-> consecutive (fun x y => R (f x) (f y)) l.
Proof.
  induction l as [|x l IH]; [reflexivity|].
  destruct l as [|y l]; [reflexivity|].
  change (R (f x) (f y) /\ consecutive R (map f (y :: l))
          <-> R (f x) (f y) /\ consecutive (fun a b => R (f a) (f b)) (y :: l)).
  now rewrite IH.
Qed.

(** C1 (amended): [compute_ranges] never raises and returns one range per
    entry, carrying the entry's title and start page, with
    [start_page <= end_page] in every range.  All end pages are within the
    [total_pages] exactly when all start pages are, and a range is followed
    immediately by the next one exactly when its start page is strictly
    below the next start page.  Hence for an outline with strictly
    increasing start pages, none beyond the last page, the ranges lie
    inside the document and are contiguous. *)
Theorem compute_ranges_shape (toc : list OutlineEntry) (total_pages : Z) :
  exists ranges,
    compute_ranges toc total_pages = Some ranges
    /\ length ranges = length toc
    /\ map title ranges = map fst toc
    /\ map start_page ranges = map snd toc
    /\ Forall (fun r => start_page r <= end_page r) ranges
    /\ (Forall (fun r => end_page r <= total_pages) ranges
        <-> Forall (fun e => snd e <= total_pages) toc)
    /\ consecutive
         (fun r r' =>
            end_page r + 1 = start_page r' <-> start_page r < start_page r')
         ranges
    /\ (well_formed_outline toc total_pages ->
        tiles_document ranges total_pages).
Proof.
  exists (ranges_of toc total_pages).
  pose proof (ranges_of_ordered toc total_pages) as Hord.
  pose proof (ranges_of_bounded toc total_pages) as Hbnd.
  pose proof (ranges_of_contiguity toc total_pages) as Hcont.
  pose proof (ranges_of_starts toc total_pages) as Hst.
  repeat split; auto using compute_ranges_eq, ranges_of_length,
    ranges_of_titles; try (now apply Hbnd).
  - destruct H as [_ Hle]. apply Hbnd in Hle.
    rewrite Forall_forall in *. intros r Hr.
    specialize (Hord r Hr). specialize (Hle r Hr). lia.
  - destruct H as [Hinc _].
    apply (consecutive_map snd (fun a b => a < b)) in Hinc.
    rewrite <- Hst in Hinc.
    apply (consecutive_map start_page (fun a b => a < b)) in Hinc.
    revert Hinc. apply consecutive_impl.
    revert Hcont. apply consecutive_impl.
    generalize (ranges_of toc total_pages). intros l.
    induction l as [|x l IH]; [exact I|].
    destruct l as [|y l]; [exact I|].
    split; [tauto | exact IH].
Qed.

(** C1, an instance: the outline of the scenario is well formed, so its
    ranges tile the 40 pages. *)
Lemma compute_ranges_shape_witness :
  exists ranges,
    compute_ranges [(str "Intro", 1); (str "Bio", 10); (str "History", 25)] 40
    = Some ranges
    /\ tiles_document ranges 40.
Proof.
  destruct (compute_ranges_shape
              [(str "Intro", 1); (str "Bio", 10); (str "History", 25)] 40)
    as [ranges [Heq [_ [_ [_ [_ [_ [_ Htile]]]]]]]].
  exists ranges. split; [exact Heq|].
  apply Htile. split.
  - cbn [consecutive snd]. lia.
  - repeat constructor; cbn [snd]; lia.
Defined.

(** C1 as stated fails: two chapters on the same page give a first range
    [(5,5)] that is not followed by page 6, and a chapter that starts after
    the last page gets an end page beyond the document. *)
Lemma compute_ranges_not_always_tiling :
  compute_ranges [(str "A", 5); (str "B", 5)] 40
  = Some [mkChapterRange (str "A") 5 5; mkChapterRange (str "B") 5 40]
  /\ ~ tiles_document
         [mkChapterRange (str "A") 5 5; mkChapterRange (str "B") 5 40] 40
  /\ compute_ranges [(str "A", 50)] 40 = Some [mkChapterRange (str "A") 50 50]
  /\ ~ tiles_document [mkChapterRange (str "A") 50 50] 40.
Proof.
  split; [reflexivity|]. split.
  - intros [_ H]. cbn in H. lia.
  - split; [reflexivity|]. intros [H _].
    inversion H as [|x l Hx Hl]; subst. cbn in Hx. lia.
Qed.

(** C2: the range of an entry has the entry's title and start page; its
    end page is the next entry's start page minus one, or [total_pages] for
    the last entry, replaced by the start page when it is below it.  The
    call never raises, an empty outline gives no range, and the three
    chapter outline over 40 pages gives (1,9), (10,24), (25,40). *)
Theorem compute_ranges_end_page :
  (forall (pre : list OutlineEntry) (t : pystr) (s : Z)
          (post : list OutlineEntry) (total_pages : Z),
      exists ranges,
        compute_ranges (pre ++ (t, s) :: post) total_pages = Some ranges
        /\ nth_error ranges (length pre)
           = Some (mkChapterRange t s
                     (let computed :=
                        match post with
                        | [] => total_pages
                        | (_, next_start) :: _ => next_start - 1
                        end in
                      if computed <? s then s else computed)))
  /\ (forall total_pages, compute_ranges [] total_pages = Some [])
  /\ compute_ranges [(str "Intro", 1); (str "Bio", 10); (str "History", 25)] 40
     = Some [mkChapterRange (str "Intro") 1 9;
             mkChapterRange (str "Bio") 10 24;
             mkChapterRange (str "History") 25 40].
Proof.
  split; [|split; reflexivity].
  intros pre t s post total_pages.
  exists (ranges_of (pre ++ (t, s) :: post) total_pages).
  split; [apply compute_ranges_eq|].
  rewrite ranges_of_nth. unfold clamp_end, raw_end.
  destruct post as [|[t' s'] post']; reflexivity.
Qed.

(** ** The document, and the statements of the splitter *)

(** What a call of a page method gives: a value, or an exception. *)
Inductive call (A : Type) : Type :=
| Returns (a : A)
| Raises.
Arguments Returns {A} a.
Arguments Raises {A}.

(** A page of the source document, as far as the program observes it:
    what [page.get_contents()] and [page.extract_text()] give.  A content
    stream is a sequence of bytes; Python's [None] is [None]. *)
Record Page : Type := mkPage
  { get_contents : call (option (list N));
    extract_text : call (option pystr) }.

(** [reader.pages[index]]: the sequence protocol of the library's page
    list.  A negative index counts from the end; outside the list the
    access raises [IndexError] ([None]). *)
Definition pages_getitem (pages : list Page) (index : Z) : option Page :=
  let len := Z.of_nat (length pages) in
  let index := if (index <? 0) then (len + index) else index in
  if (index <? 0) || (len <=? index) then None
  else nth_error pages (Z.to_nat index).

(** [range(a, b)]. *)
Fixpoint range_from (a : Z) (n : nat) : list Z :=
  match n with
  | O => []
  | S n' => a :: range_from (a + 1) n'
  end.

Definition py_range (a b : Z) : list Z := range_from a (Z.to_nat (b - a)).

(** The source document held by the reader, and the files written so far,
    oldest first.  A written file is its name and the pages of its writer. *)
Record world : Type := mkWorld
  { source : list Page;
    written : list (pystr * list Page) }.

(** Statements of [split_pdf]: a statement runs in a world and either
    completes with a value or raises, leaving a world behind. *)
Definition M (A : Type) : Type := world -> option A * world.

Definition ret {A : Type} (a : A) : M A := fun w => (Some a, w).

Definition bind {A B : Type} (m : M A) (k : A -> M B) : M B :=
  fun w =>
    match m w with
    | (Some a, w') => k a w'
    | (None, w') => (None, w')
    end.

Notation "x <- m ;; k" := (bind m (fun x => k))
  (at level 61, m at next level, right associativity).
Notation "m ;; k" := (bind m (fun _ => k))
  (at level 61, right associativity).

(** ** Text: character classes, [str.strip] and the substitutions *)

Section Interpreter.

Local Open Scope N_scope.

(** [str.isspace], [str.strip] and the classes [\s] and [\w] of [re] read
    the Unicode database of the running interpreter.  Below 128 the
    classes are fixed and written out here; for the other code points the
    two tables are parameters. *)
Variable uni_space : char -> bool.
Variable uni_alnum : char -> bool.

Definition ascii_space (c : char) : bool :=
  ((9 <=? c) && (c <=? 13)) || ((28 <=? c) && (c <=? 32)).

Definition ascii_alnum (c : char) : bool :=
  ((48 <=? c) && (c <=? 57)) || ((65 <=? c) && (c <=? 90))
  || ((97 <=? c) && (c <=? 122)).

Definition isspace (c : char) : bool :=
  if c <? 128 then ascii_space c else uni_space c.

Definition isalnum (c : char) : bool :=
  if c <? 128 then ascii_alnum c else uni_alnum c.

(** [\w]: alphanumeric or the underscore. *)
Definition isword (c : char) : bool := isalnum c || (c =? 95).

(** [str.strip()] without argument: whitespace is removed at both ends. *)
Fixpoint lstrip (s : pystr) : pystr :=
  match s with
  | [] => []
  | c :: s' => if isspace c then lstrip s' else s
  end.

Definition rstrip (s : pystr) : pystr := rev (lstrip (rev s)).

Definition strip (s : pystr) : pystr := rstrip (lstrip s).

(** [re.sub(r"[...]+", repl, s)] for a character class [cls] and a
    replacement without group references: scanning from the left, every
    maximal run of characters of the class is replaced by [repl].
    [in_run] tells that the previous character belonged to a run, whose
    replacement has been emitted already. *)
Fixpoint sub_runs (cls : char -> bool) (repl : pystr) (in_run : bool)
    (s : pystr) : pystr :=
  match s with
  | [] => []
  | c :: s' =>
      if cls c
      then (if in_run then [] else repl) ++ sub_runs cls repl true s'
      else c :: sub_runs cls repl false s'
  end.

Definition re_sub_class_plus (cls : char -> bool) (repl s : pystr) : pystr :=
  sub_runs cls repl false s.

(** The class [[\\/]]. *)
Definition is_separator (c : char) : bool := (c =? 92) || (c =? 47).

(** The class [[\w\-\. ]], whose complement is removed. *)
Definition is_allowed (c : char) : bool :=
  isword c || (c =? 45) || (c =? 46) || (c =? 32).

Definition _sanitize_filename (name : pystr) : pystr :=
  let name := strip name in
  (* Replace path separators and illegal characters *)
  let name := re_sub_class_plus is_separator (str "-") name in
  let name := re_sub_class_plus (fun c => negb (is_allowed c)) (str "") name in
  let name := strip (re_sub_class_plus isspace (str " ") name) in
  name.

(** *** File names *)

Definition chapter_names : list pystr :=
  [ str "01-mol-bio.pdf";
    str "02-history.pdf";
    str "03-genomes.pdf";
    str "04-genes.pdf";
    str "05-alignment-m.pdf";
    str "06-alignment-t.pdf";
    str "07-filogeny.pdf" ].

Fixpoint uint_chars (d : Decimal.uint) : pystr :=
  match d with
  | Decimal.Nil => []
  | Decimal.D0 d => 48 :: uint_chars d
  | Decimal.D1 d => 49 :: uint_chars d
  | Decimal.D2 d => 50 :: uint_chars d
  | Decimal.D3 d => 51 :: uint_chars d
  | Decimal.D4 d => 52 :: uint_chars d
  | Decimal.D5 d => 53 :: uint_chars d
  | Decimal.D6 d => 54 :: uint_chars d
  | Decimal.D7 d => 55 :: uint_chars d
  | Decimal.D8 d => 56 :: uint_chars d
  | Decimal.D9 d => 57 :: uint_chars d
  end.

(** [f"{n:02d}"] for a natural number: its decimal digits, padded with
    zeros on the left to a width of two. *)
Definition format_02d (n : N) : pystr :=
  let digits := uint_chars (N.to_uint n) in
  repeat 48 (2 - length digits)%nat ++ digits.

(** The choice of the file name in [split_pdf], for the chapter at
    position [i] of the enumeration. *)
Definition chapter_filename (use_chapter_names : bool) (i : nat)
    (info : ChapterRange) : pystr :=
  if use_chapter_names && (i <? length chapter_names)%nat
  then nth i chapter_names []
  else _sanitize_filename
         (format_02d (N.of_nat i + 1) ++ str "-" ++ title info ++ str ".pdf").

(** *** The blank-page test *)

(** The first [try] block of [is_blank_page]: [Some true] is
    [return True]; [None] is falling through to the next statement, either
    because the page has contents or because the access raised and the
    handler passed. *)
Definition contents_missing (page : Page) : option bool :=
  match get_contents page with
  | Returns None => Some true
  | Returns (Some _) => None
  | Raises => None
  end.

(** The second [try] block: [text = page.extract_text() or ""], then the
    test [text.strip() == ""]. *)
Definition text_missing (page : Page) : option bool :=
  match extract_text page with
  | Returns t =>
      let text := match t with
                  | Some ((_ :: _) as u) => u
                  | _ => str ""
                  end in
      match strip text with
      | [] => Some true
      | _ :: _ => None
      end
  | Raises => None
  end.

Definition is_blank_page (reader : list Page) (page_index_zero_based : Z)
    : option bool :=
  match pages_getitem reader page_index_zero_based with
  | None => None
  | Some page =>
      match contents_missing page with
      | Some b => Some b
      | None =>
          match text_missing page with
          | Some b => Some b
          | None => Some false
          end
      end
  end.

(** *** Splitting *)

Local Open Scope Z_scope.

(** [reader.pages[p]] *)
Definition read_page (p : Z) : M Page :=
  fun w => (pages_getitem (source w) p, w).

(** [is_blank_page(reader, p)] *)
Definition test_blank (p : Z) : M bool :=
  fun w => (is_blank_page (source w) p, w).

(** [with out_path.open("wb") as f: writer.write(f)].  The file is kept
    as its name under [output_dir] and the pages of its writer; the
    creation of the directory and failures of the file system are left
    out. *)
Definition write_file (filename : pystr) (writer : list Page) : M unit :=
  fun w => (Some tt, mkWorld (source w) (written w ++ [(filename, writer)])).

(** [for p in range(...): writer.add_page(reader.pages[p])] *)
Fixpoint add_pages (ps : list Z) (writer : list Page) : M (list Page) :=
  match ps with
  | [] => ret writer
  | p :: ps' =>
      page <- read_page p ;;
      add_pages ps' (writer ++ [page])
  end.

(** The body of the loop of [split_pdf] for a chapter that is not skipped. *)
Definition split_chapter (use_chapter_names : bool) (i : nat)
    (info : ChapterRange) : M unit :=
  let writer := [] in
  (* Convert to 0-based indices for pypdf *)
  let start0 := start_page info - 1 in
  let end0 := end_page info - 1 in
  (* Exclude last page if blank *)
  blank <- test_blank end0 ;;
  let last_page_to_include :=
    if blank then Z.max start0 (end0 - 1) else end0 in
  writer <- add_pages (py_range start0 (last_page_to_include + 1)) writer ;;
  write_file (chapter_filename use_chapter_names i info) writer.

(** The loop over [enumerate(ranges)], from position [i] on. *)
Fixpoint split_pdf_loop (use_chapter_names : bool) (only_index : option Z)
    (i : nat) (ranges : list ChapterRange) : M unit :=
  match ranges with
  | [] => ret tt
  | info :: ranges' =>
      let skip := match only_index with
                  | Some k => negb (Z.of_nat i =? k)
                  | None => false
                  end in
      if skip
      then split_pdf_loop use_chapter_names only_index (S i) ranges'
      else split_chapter use_chapter_names i info ;;
           split_pdf_loop use_chapter_names only_index (S i) ranges'
  end.

Definition split_pdf (ranges : list ChapterRange) (use_chapter_names : bool)
    (only_index : option Z) : M unit :=
  split_pdf_loop use_chapter_names only_index 0 ranges.

(** The last page a chapter keeps, as [split_pdf] computes it. *)
Definition last_page_to_include (reader : list Page) (info : ChapterRange)
    : option Z :=
  match is_blank_page reader (end_page info - 1) with
  | None => None
  | Some blank =>
      Some (if blank
            then Z.max (start_page info - 1) (end_page info - 1 - 1)
            else end_page info - 1)
  end.

(** [reader.pages[a:b]] for [0 <= a]. *)
Definition slice (pages : list Page) (a b : Z) : list Page :=
  firstn (Z.to_nat (b - a)) (skipn (Z.to_nat a) pages).

(** *** Properties of [strip] and of the substitutions *)

Local Open Scope N_scope.

Lemma lstrip_Forall (Q : char -> Prop) (s : pystr) :
  Forall Q s -> Forall Q (lstrip s).
Proof.
  induction 1 as [|c s Hc Hs IH]; cbn [lstrip]; [constructor|].
  destruct (isspace c); [exact IH | now constructor].
Qed.

Lemma rstrip_Forall (Q : char -> Prop) (s : pystr) :
  Forall Q s -> Forall Q (rstrip s).
Proof.
  intros H. unfold rstrip.
  apply Forall_rev, lstrip_Forall, Forall_rev, H.
Qed.

Lemma strip_Forall (Q : char -> Prop) (s : pystr) :
  Forall Q s -> Forall Q (strip s).
Proof.
  intros H. apply rstrip_Forall, lstrip_Forall, H.
Qed.

Lemma sub_runs_Forall (Q : char -> Prop) (cls : char -> bool) (repl : pystr) :
  Forall Q repl ->
  forall (s : pystr) (b : bool),
    Forall (fun c => cls c = false -> Q c) s ->
    Forall Q (sub_runs cls repl b s).
Proof.
  intros Hrepl s. induction s as [|c s IH]; intros b Hs; cbn [sub_runs].
  - constructor.
  - inversion Hs as [|c' s' Hc Hs']; subst.
    destruct (cls c) eqn:Ec.
    + apply Forall_app. split; [destruct b; [constructor | exact Hrepl]|].
      now apply IH.
    + constructor; [now apply Hc | now apply IH].
Qed.

Lemma sub_runs_keeps (Q : char -> Prop) (cls : char -> bool) (repl s : pystr)
    (b : bool) :
  Forall Q repl -> Forall Q s -> Forall Q (sub_runs cls repl b s).
Proof.
  intros Hrepl Hs. apply sub_runs_Forall; [exact Hrepl|].
  revert Hs. apply Forall_impl. auto.
Qed.

Lemma separator_not_allowed (c : char) :
  is_separator c = true -> is_allowed c = false.
Proof.
  unfold is_separator. intros H. apply orb_true_iff in H.
  destruct H as [H|H]; apply N.eqb_eq in H; subst c; reflexivity.
Qed.

Lemma space_is_allowed : is_allowed 32 = true.
Proof. reflexivity. Qed.

Lemma _sanitize_filename_allowed (name : pystr) :
  Forall (fun c => is_allowed c = true) (_sanitize_filename name).
Proof.
  unfold _sanitize_filename, re_sub_class_plus.
  apply strip_Forall, sub_runs_keeps.
  - repeat constructor.
  - apply sub_runs_Forall; [constructor|].
    apply Forall_forall. intros c _ Hc. now apply negb_false_iff in Hc.
Qed.

(** A string all of whose characters are in the class [[\w\-\. ]] has no
    separator, hence no [../] and no [..\]. *)
Lemma allowed_no_separator (s : pystr) :
  Forall (fun c => is_allowed c = true) s ->
  ~ In 47%N s /\ ~ In 92%N s
  /\ (forall pre post, s <> pre ++ str "../" ++ post)
  /\ (forall pre post, s <> pre ++ str "..\" ++ post).
Proof.
  intros H. rewrite Forall_forall in H.
  assert (H47 : ~ In 47%N s) by (intros Hin; apply H in Hin; discriminate).
  assert (H92 : ~ In 92%N s) by (intros Hin; apply H in Hin; discriminate).
  repeat split; auto; intros pre post E.
  - apply H47. rewrite E. apply in_or_app. right. cbn. auto.
  - apply H92. rewrite E. apply in_or_app. right. cbn. auto.
Qed.

Lemma chapter_names_allowed (i : nat) :
  Forall (fun c => is_allowed c = true) (nth i chapter_names []).
Proof.
  apply Forall_forall. intros c Hc.
  assert (Hall : forallb (forallb is_allowed) chapter_names = true)
    by (vm_compute; reflexivity).
  rewrite forallb_forall in Hall.
  destruct (Nat.lt_ge_cases i (length chapter_names)) as [Hi|Hi].
  - specialize (Hall _ (nth_In chapter_names [] Hi)).
    rewrite forallb_forall in Hall. now apply Hall.
  - rewrite nth_overflow in Hc by exact Hi. destruct Hc.
Qed.

Lemma chapter_filename_allowed (use_chapter_names : bool) (i : nat)
    (info : ChapterRange) :
  Forall (fun c => is_allowed c = true)
    (chapter_filename use_chapter_names i info).
Proof.
  unfold chapter_filename.
  destruct (use_chapter_names && (i <? length chapter_names)%nat).
  - apply chapter_names_allowed.
  - apply _sanitize_filename_allowed.
Qed.

(** *** The sanitized name is a fixed point *)

(** A string that does not begin with whitespace. *)
Definition starts_clean (s : pystr) : Prop :=
  match s with
  | [] => True
  | c :: _ => isspace c = false
  end.

(** A string that neither begins nor ends with whitespace. *)
Definition stripped (s : pystr) : Prop :=
  starts_clean s /\ starts_clean (rev s).

(** Every whitespace character of [s] is a space, and no two of them are
    adjacent; [prev] tells that [s] follows a whitespace character. *)
Fixpoint spaced (prev : bool) (s : pystr) : bool :=
  match s with
  | [] => true
  | c :: s' =>
      if isspace c
      then (c =? 32) && negb prev && spaced true s'
      else spaced false s'
  end.

Lemma lstrip_clean (s : pystr) : starts_clean (lstrip s).
Proof.
  induction s as [|c s IH]; cbn [lstrip]; [exact I|].
  destruct (isspace c) eqn:E; [exact IH | exact E].
Qed.

Lemma lstrip_id (s : pystr) : starts_clean s -> lstrip s = s.
Proof.
  destruct s as [|c s]; [reflexivity|].
  cbn [starts_clean lstrip]. now intros ->.
Qed.

Lemma lstrip_split (s : pystr) : exists w, s = w ++ lstrip s.
Proof.
  induction s as [|c s [w IH]]; [now exists []|].
  cbn [lstrip]. destruct (isspace c).
  - exists (c :: w). cbn [app]. now rewrite <- IH.
  - now exists [].
Qed.

Lemma rstrip_split (s : pystr) : exists w, s = rstrip s ++ w.
Proof.
  destruct (lstrip_split (rev s)) as [w Hw].
  exists (rev w). unfold rstrip.
  rewrite <- rev_app_distr, <- Hw. now rewrite rev_involutive.
Qed.

Lemma rstrip_id (s : pystr) : starts_clean (rev s) -> rstrip s = s.
Proof.
  intros H. unfold rstrip. rewrite lstrip_id by exact H.
  apply rev_involutive.
Qed.

Lemma rstrip_starts_clean (s : pystr) :
  starts_clean s -> starts_clean (rstrip s).
Proof.
  destruct (rstrip_split s) as [w Hw].
  destruct (rstrip s) as [|c r]; [intros _; exact I|].
  rewrite Hw. now cbn [app starts_clean].
Qed.

Lemma strip_stripped (s : pystr) : stripped (strip s).
Proof.
  unfold stripped, strip. split.
  - apply rstrip_starts_clean, lstrip_clean.
  - unfold rstrip. rewrite rev_involutive. apply lstrip_clean.
Qed.

Lemma strip_id (s : pystr) : stripped s -> strip s = s.
Proof.
  intros [H1 H2]. unfold strip. rewrite lstrip_id by exact H1.
  now apply rstrip_id.
Qed.

Lemma isspace_space : isspace 32 = true.
Proof. reflexivity. Qed.

Lemma collapse_spaced (s : pystr) :
  forall b, spaced b (sub_runs isspace (str " ") b s) = true.
Proof.
  induction s as [|c s IH]; intros b; cbn [sub_runs]; [reflexivity|].
  destruct (isspace c) eqn:E.
  - destruct b; cbn [app str map list_ascii_of_string].
    + apply IH.
    + change (N_of_ascii " ") with 32. cbn [spaced].
      rewrite isspace_space, IH. reflexivity.
  - cbn [spaced]. rewrite E. apply IH.
Qed.

Lemma spaced_collapse_id (s : pystr) :
  forall b, spaced b s = true -> sub_runs isspace (str " ") b s = s.
Proof.
  induction s as [|c s IH]; intros b H; cbn [sub_runs]; [reflexivity|].
  cbn [spaced] in H. destruct (isspace c).
  - apply andb_true_iff in H. destruct H as [H Hs].
    apply andb_true_iff in H. destruct H as [Hc Hb].
    apply N.eqb_eq in Hc. apply negb_true_iff in Hb. subst c b.
    rewrite (IH true Hs). reflexivity.
  - now rewrite (IH false H).
Qed.

Lemma spaced_weaken (s : pystr) (b : bool) :
  spaced b s = true -> spaced false s = true.
Proof.
  destruct s as [|c s]; [reflexivity|]. cbn [spaced].
  destruct (isspace c); [|trivial].
  destruct b; [|trivial].
  rewrite andb_false_r. discriminate.
Qed.

Lemma spaced_suffix (w s : pystr) :
  forall b, spaced b (w ++ s) = true -> spaced false s = true.
Proof.
  induction w as [|c w IH]; intros b H; cbn [app] in H.
  - now apply spaced_weaken in H.
  - cbn [spaced] in H. destruct (isspace c).
    + apply andb_true_iff in H. destruct H as [_ H]. now apply IH in H.
    + now apply IH in H.
Qed.

Lemma spaced_prefix (p q : pystr) :
  forall b, spaced b (p ++ q) = true -> spaced b p = true.
Proof.
  induction p as [|c p IH]; intros b H; [reflexivity|].
  cbn [app spaced] in *. destruct (isspace c).
  - apply andb_true_iff in H. destruct H as [H1 H2].
    rewrite H1. now apply IH.
  - now apply IH.
Qed.

Lemma strip_spaced (s : pystr) :
  spaced false s = true -> spaced false (strip s) = true.
Proof.
  intros H. unfold strip.
  destruct (lstrip_split s) as [w Hw].
  rewrite Hw in H. apply spaced_suffix in H.
  destruct (rstrip_split (lstrip s)) as [w' Hw'].
  rewrite Hw' in H. now apply spaced_prefix in H.
Qed.

Lemma sub_runs_id (cls : char -> bool) (repl s : pystr) :
  Forall (fun c => cls c = false) s ->
  forall b, sub_runs cls repl b s = s.
Proof.
  induction 1 as [|c s Hc Hs IH]; intros b; cbn [sub_runs]; [reflexivity|].
  now rewrite Hc, IH.
Qed.

(** What the result of [_sanitize_filename] looks like. *)
Definition sanitized (s : pystr) : Prop :=
  Forall (fun c => is_allowed c = true) s
  /\ spaced false s = true
  /\ stripped s.

Lemma _sanitize_filename_sanitized (name : pystr) :
  sanitized (_sanitize_filename name).
Proof.
  split; [apply _sanitize_filename_allowed|].
  unfold _sanitize_filename, re_sub_class_plus.
  split; [apply strip_spaced, collapse_spaced | apply strip_stripped].
Qed.

Lemma sanitized_fixed (s : pystr) :
  sanitized s -> _sanitize_filename s = s.
Proof.
  intros [Hall [Hsp Hst]]. unfold _sanitize_filename, re_sub_class_plus.
  rewrite (strip_id s Hst).
  rewrite (sub_runs_id is_separator (str "-") s).
  - rewrite (sub_runs_id (fun c => negb (is_allowed c)) (str "") s).
    + rewrite (spaced_collapse_id s false Hsp). now apply strip_id.
    + revert Hall. apply Forall_impl. intros c Hc. now rewrite Hc.
  - revert Hall. apply Forall_impl. intros c Hc.
    destruct (is_separator c) eqn:E; [|reflexivity].
    apply separator_not_allowed in E. congruence.
Qed.

(** C10: sanitizing a sanitized name changes nothing. *)
Theorem sanitize_filename_idempotent (name : pystr) :
  _sanitize_filename (_sanitize_filename name) = _sanitize_filename name.
Proof.
  apply sanitized_fixed, _sanitize_filename_sanitized.
Qed.

(** *** The derived file name *)

(** The three substitutions of [_sanitize_filename], without the
    stripping of the ends. *)
Definition clean_title (t : pystr) : pystr :=
  re_sub_class_plus isspace (str " ")
    (re_sub_class_plus (fun c => negb (is_allowed c)) (str "")
       (re_sub_class_plus is_separator (str "-") t)).

(** [prefix ++ "-" ++ t ++ ".pdf"] *)
Definition framed (prefix t : pystr) : pystr :=
  prefix ++ str "-" ++ t ++ str ".pdf".

(** The characters of the frame: digits, and those of [-] and [.pdf]. *)
Definition frame_char (c : char) : bool :=
  ((48 <=? c) && (c <=? 57))
  || (c =? 45) || (c =? 46) || (c =? 112) || (c =? 100) || (c =? 102).

Lemma below_enum (k : nat) (c : char) :
  c < N.of_nat k -> In c (map N.of_nat (seq 0 k)).
Proof.
  intros H. rewrite <- (N2Nat.id c). apply in_map, in_seq.
  unfold char in c. lia.
Qed.

Lemma frame_char_plain (c : char) :
  frame_char c = true ->
  isspace c = false /\ is_separator c = false /\ is_allowed c = true.
Proof.
  intros H.
  assert (Hc : c < N.of_nat 128).
  { revert H. unfold frame_char.
    rewrite !orb_true_iff, andb_true_iff, !N.eqb_eq, !N.leb_le.
    unfold char in c. lia. }
  apply below_enum in Hc.
  assert (Hall : forallb
            (fun c => negb (frame_char c)
                      || (negb (isspace c) && negb (is_separator c)
                          && is_allowed c))
            (map N.of_nat (seq 0 128)) = true)
    by (vm_compute; reflexivity).
  rewrite forallb_forall in Hall. specialize (Hall c Hc).
  rewrite H in Hall. cbn [negb orb] in Hall.
  apply andb_true_iff in Hall. destruct Hall as [Hall Ha].
  apply andb_true_iff in Hall. destruct Hall as [Hs Hp].
  apply negb_true_iff in Hs, Hp. auto.
Qed.

Lemma uint_chars_digits (d : Decimal.uint) :
  Forall (fun c => frame_char c = true) (uint_chars d).
Proof.
  induction d; cbn [uint_chars]; constructor; auto.
Qed.

Lemma format_02d_digits (n : N) :
  Forall (fun c => frame_char c = true) (format_02d n).
Proof.
  unfold format_02d. apply Forall_app. split.
  - apply Forall_forall. intros c Hc. apply repeat_spec in Hc. now subst c.
  - apply uint_chars_digits.
Qed.

Lemma format_02d_length (n : N) : (2 <= length (format_02d n))%nat.
Proof.
  unfold format_02d. cbv zeta. rewrite length_app, repeat_length.
  unfold pystr, char. lia.
Qed.

Lemma sub_runs_app_keep (cls : char -> bool) (repl : pystr) (c : char)
    (post : pystr) :
  cls c = false ->
  forall (pre : pystr) (b : bool),
    sub_runs cls repl b (pre ++ c :: post)
    = sub_runs cls repl b pre ++ c :: sub_runs cls repl false post.
Proof.
  intros Hc. induction pre as [|a pre IH]; intros b; cbn [app sub_runs].
  - now rewrite Hc.
  - destruct (cls a); rewrite IH; [now rewrite app_assoc | reflexivity].
Qed.

(** A substitution that does not touch the characters of the frame works
    on the title alone. *)
Lemma sub_runs_framed (cls : char -> bool) (repl prefix t : pystr) :
  (forall c, frame_char c = true -> cls c = false) ->
  Forall (fun c => frame_char c = true) prefix ->
  sub_runs cls repl false (framed prefix t)
  = framed prefix (sub_runs cls repl false t).
Proof.
  intros Hcls Hprefix. unfold framed.
  change (str "-" ++ t ++ str ".pdf") with (45 :: t ++ 46 :: str "pdf").
  change (str "-" ++ sub_runs cls repl false t ++ str ".pdf")
    with (45 :: sub_runs cls repl false t ++ 46 :: str "pdf").
  rewrite sub_runs_app_keep by (now apply Hcls).
  rewrite sub_runs_app_keep by (now apply Hcls).
  rewrite sub_runs_id.
  - rewrite (sub_runs_id cls repl (str "pdf")); [reflexivity|].
    repeat constructor; now apply Hcls.
  - revert Hprefix. apply Forall_impl. exact Hcls.
Qed.

Lemma framed_stripped (d : char) (prefix t : pystr) :
  frame_char d = true -> stripped (framed (d :: prefix) t).
Proof.
  intros Hd. split.
  - cbn [framed app starts_clean]. now apply frame_char_plain.
  - unfold framed. rewrite !rev_app_distr. reflexivity.
Qed.

Lemma _sanitize_filename_framed (prefix t : pystr) :
  Forall (fun c => frame_char c = true) prefix ->
  (1 <= length prefix)%nat ->
  _sanitize_filename (framed prefix t) = framed prefix (clean_title t).
Proof.
  intros Hprefix Hlen.
  destruct prefix as [|d prefix]; [cbn [length] in Hlen; lia|].
  assert (Hd : frame_char d = true) by (now inversion Hprefix).
  unfold _sanitize_filename, clean_title, re_sub_class_plus.
  rewrite (strip_id _ (framed_stripped d prefix t Hd)).
  rewrite !sub_runs_framed; try exact Hprefix.
  - apply strip_id, framed_stripped, Hd.
  - intros c Hc. now apply frame_char_plain.
  - intros c Hc. apply frame_char_plain in Hc.
    destruct Hc as [_ [_ Hc]]. now rewrite Hc.
  - intros c Hc. now apply frame_char_plain.
Qed.

Lemma chapter_filename_length (use_chapter_names : bool) (i : nat)
    (info : ChapterRange) :
  (3 <= length (chapter_filename use_chapter_names i info))%nat.
Proof.
  unfold chapter_filename.
  destruct (use_chapter_names && (i <? length chapter_names)%nat) eqn:E.
  - apply andb_true_iff in E. destruct E as [_ E]. apply Nat.ltb_lt in E.
    assert (Hall : forallb (fun n => (3 <=? length n)%nat) chapter_names
                   = true) by reflexivity.
    rewrite forallb_forall in Hall.
    apply Nat.leb_le, Hall, nth_In, E.
  - pose proof (_sanitize_filename_framed (format_02d (N.of_nat i + 1))
                  (title info) (format_02d_digits _)) as H.
    unfold framed in H. rewrite H.
    + rewrite !length_app. pose proof (format_02d_length (N.of_nat i + 1)).
      change (length (str "-")) with 1%nat.
      unfold pystr, char in *. lia.
    + pose proof (format_02d_length (N.of_nat i + 1)). lia.
Qed.

(** C6: whatever the input, the sanitized name consists of characters of
    the class [[\w\-\. ]] only; it contains neither [/] nor [\], hence
    no [../] or [..\] either.  The same holds of every file name that
    [split_pdf] chooses, predefined or derived, and such a name is
    neither [.] nor [..]. *)
Theorem sanitize_filename_safe :
  (forall name : pystr,
      let out := _sanitize_filename name in
      Forall (fun c => is_allowed c = true) out
      /\ ~ In 47%N out /\ ~ In 92%N out
      /\ (forall pre post, out <> pre ++ str "../" ++ post)
      /\ (forall pre post, out <> pre ++ str "..\" ++ post))
  /\ (forall (use_chapter_names : bool) (i : nat) (info : ChapterRange),
        let out := chapter_filename use_chapter_names i info in
        (Forall (fun c => is_allowed c = true) out
         /\ ~ In 47%N out /\ ~ In 92%N out
         /\ (forall pre post, out <> pre ++ str "../" ++ post)
         /\ (forall pre post, out <> pre ++ str "..\" ++ post))
        /\ out <> str "." /\ out <> str "..").
Proof.
  split.
  - intros name out.
    pose proof (_sanitize_filename_allowed name) as H. fold out in H.
    split; [exact H | now apply allowed_no_separator].
  - intros u i info out.
    pose proof (chapter_filename_allowed u i info) as H. fold out in H.
    pose proof (chapter_filename_length u i info) as Hlen. fold out in Hlen.
    split; [split; [exact H | now apply allowed_no_separator]|].
    split; intros E; rewrite E in Hlen; cbn in Hlen; lia.
Qed.

(** *** The sanitized title, in the words of the contract

    The contract of the derived name speaks of the title alone: its path
    separators are replaced by a hyphen, its characters outside word,
    hyphen, dot and space are stripped, and its whitespace is collapsed.
    The three functions below say this without the substitutions of
    [re]; the derived name is compared with them. *)

(** Every maximal run of characters of the class [cls] gives the one
    character [r]: a character of the class is dropped when the next one
    is of the class too, and becomes [r] when it is the last of its
    run. *)
Fixpoint collapse_runs (cls : char -> bool) (r : char) (s : pystr) : pystr :=
  match s with
  | [] => []
  | c :: s' =>
      if cls c
      then match s' with
           | [] => [r]
           | c' :: _ =>
               if cls c' then collapse_runs cls r s'
               else r :: collapse_runs cls r s'
           end
      else c :: collapse_runs cls r s'
  end.





(** What [collapse_runs] does to a run and to the characters between the
    runs. *)
Lemma collapse_runs_run (cls : char -> bool) (r : char) (run post : pystr) :
  run <> [] -> Forall (fun c => cls c = true) run ->
  match post with [] => True | c :: _ => cls c = false end ->
  collapse_runs cls r (run ++ post) = r :: collapse_runs cls r post.
Proof.
  intros Hne Hrun Hpost. induction Hrun as [|c run Hc Hrun IH]; [easy|].
  cbn [app collapse_runs]. rewrite Hc.
  destruct run as [|c' run].
  - cbn [app]. destruct post as [|d post]; [reflexivity|]. now rewrite Hpost.
  - cbn [app] in *. inversion Hrun as [|? ? Hc' _]. rewrite Hc'.
    now apply IH.
Qed.

Lemma collapse_runs_keep (cls : char -> bool) (r : char) (s : pystr) :
  Forall (fun c => cls c = false) s -> collapse_runs cls r s = s.
Proof.
  induction 1 as [|c s Hc Hs IH]; cbn [collapse_runs]; [reflexivity|].
  now rewrite Hc, IH.
Qed.





(** *** The blank-page test *)

Lemma lstrip_nil (s : pystr) :
  lstrip s = [] <-> Forall (fun c => isspace c = true) s.
Proof.
  induction s as [|c s IH]; cbn [lstrip].
  - split; [constructor | reflexivity].
  - destruct (isspace c) eqn:E.
    + rewrite IH. split; intros H; [now constructor | now inversion H].
    + split; [discriminate|]. intros H. inversion H. congruence.
Qed.

Lemma strip_nil (s : pystr) :
  strip s = [] <-> Forall (fun c => isspace c = true) s.
Proof.
  rewrite <- lstrip_nil. unfold strip, rstrip. split; intros H.
  - apply (f_equal (@rev char)) in H. rewrite rev_involutive in H.
    cbn [rev] in H. apply lstrip_nil, Forall_rev in H.
    rewrite rev_involutive in H.
    pose proof (lstrip_clean s) as Hc.
    destruct (lstrip s) as [|c r]; [reflexivity|].
    cbn [starts_clean] in Hc. inversion H. congruence.
  - now rewrite H.
Qed.

(** [t or ""] for what [extract_text] returned. *)
Definition text_or_empty (t : option pystr) : pystr :=
  match t with
  | Some u => u
  | None => []
  end.

Lemma text_missing_spec (page : Page) :
  text_missing page = Some true
  \/ text_missing page = None.
Proof.
  unfold text_missing. destruct (extract_text page) as [t|]; [|now right].
  cbv zeta. destruct (strip _); [now left | now right].
Qed.

Lemma text_missing_true (page : Page) :
  text_missing page = Some true
  <-> exists t, extract_text page = Returns t
                /\ Forall (fun c => isspace c = true) (text_or_empty t).
Proof.
  unfold text_missing. destruct (extract_text page) as [t|].
  - cbv zeta.
    assert (E : match t with
                | Some ((_ :: _) as u) => u
                | _ => str ""
                end = text_or_empty t)
      by (destruct t as [[|c u]|]; reflexivity).
    rewrite E. pose proof (strip_nil (text_or_empty t)) as Hs.
    destruct (strip (text_or_empty t)) as [|c r].
    + split; [|reflexivity]. intros _. exists t. split; [reflexivity|].
      now apply Hs.
    + split; [discriminate|]. intros [t' [Ht' Ht]].
      injection Ht' as <-. apply Hs in Ht. discriminate.
  - split; [discriminate|]. intros [t [Ht _]]. discriminate.
Qed.

(** C4 (amended): outside the page list the test raises ([IndexError]);
    on a page of the document it never raises, and answers [True] exactly
    when [get_contents] returns [None], or [extract_text] returns a text
    (or [None]) that is empty or consists of whitespace only.  When the
    text extraction fails, only a missing content stream makes the page
    blank; when the access to the contents fails, the test falls back on
    the text, so the page is blank exactly when its text is; when both
    fail the page is not blank. *)
Theorem is_blank_page_spec :
  (forall reader index,
      is_blank_page reader index = None <-> pages_getitem reader index = None)
  /\ (forall reader index page,
        pages_getitem reader index = Some page ->
        exists blank,
          is_blank_page reader index = Some blank
          /\ (blank = true <->
              get_contents page = Returns None
              \/ exists t, extract_text page = Returns t
                           /\ Forall (fun c => isspace c = true)
                                (text_or_empty t))
          /\ (extract_text page = Raises ->
              (blank = true <-> get_contents page = Returns None))
          /\ (get_contents page = Raises ->
              (blank = true <->
               exists t, extract_text page = Returns t
                         /\ Forall (fun c => isspace c = true)
                              (text_or_empty t)))
          /\ (get_contents page = Raises -> extract_text page = Raises ->
              blank = false)).
Proof.
  split.
  - intros reader index. unfold is_blank_page.
    destruct (pages_getitem reader index) as [page|]; [|tauto].
    destruct (contents_missing page); [split; discriminate|].
    destruct (text_missing page); split; discriminate.
  - intros reader index page Hpage. unfold is_blank_page. rewrite Hpage.
    pose proof (text_missing_true page) as Ht.
    set (X := exists t, extract_text page = Returns t
                        /\ Forall (fun c => isspace c = true)
                             (text_or_empty t)) in *.
    assert (Hr : extract_text page = Raises -> ~ X)
      by (intros Hr [t [Hx _]]; congruence).
    unfold contents_missing.
    destruct (get_contents page) as [[stream|]|] eqn:Eg;
      [| exists true; intuition discriminate |];
      (destruct (text_missing_spec page) as [E|E]; rewrite E in Ht; rewrite E;
       [ assert (Hx : X) by (now apply Ht); exists true
       | assert (Hx : ~ X) by (intros H; apply Ht in H; discriminate);
         exists false ];
       intuition (try discriminate; try congruence)).
Qed.

(** *** The pages of a chapter *)

Local Open Scope Z_scope.

Lemma pages_getitem_inside (pages : list Page) (p : Z) :
  0 <= p < Z.of_nat (length pages) ->
  exists page, nth_error pages (Z.to_nat p) = Some page
               /\ pages_getitem pages p = Some page.
Proof.
  intros H. unfold pages_getitem. cbv zeta.
  destruct (Z.ltb_spec p 0) as [Hn|_]; [lia|].
  destruct (Z.ltb_spec p 0) as [Hn|_]; [lia|].
  destruct (Z.leb_spec (Z.of_nat (length pages)) p) as [Hn|_]; [lia|].
  cbn [orb].
  destruct (nth_error pages (Z.to_nat p)) as [page|] eqn:E.
  - now exists page.
  - apply nth_error_None in E. lia.
Qed.

Lemma pages_getitem_beyond (pages : list Page) (p : Z) :
  Z.of_nat (length pages) <= p -> pages_getitem pages p = None.
Proof.
  intros H. unfold pages_getitem. cbv zeta.
  destruct (Z.ltb_spec p 0) as [Hn|_]; [lia|].
  destruct (Z.ltb_spec p 0) as [Hn|_]; [lia|].
  destruct (Z.leb_spec (Z.of_nat (length pages)) p) as [_|Hn]; [|lia].
  reflexivity.
Qed.

Lemma skipn_cons_nth {A : Type} (l : list A) :
  forall (k : nat) (x : A),
    nth_error l k = Some x -> skipn k l = x :: skipn (S k) l.
Proof.
  induction l as [|y l IH]; intros [|k] x H; try discriminate.
  - cbn in H. now injection H as ->.
  - cbn [nth_error] in H. apply IH in H. exact H.
Qed.

Lemma add_pages_range (n : nat) :
  forall (a : Z) (writer : list Page) (w : world),
    0 <= a -> a + Z.of_nat n <= Z.of_nat (length (source w)) ->
    add_pages (range_from a n) writer w
    = (Some (writer ++ firstn n (skipn (Z.to_nat a) (source w))), w).
Proof.
  induction n as [|n IH]; intros a writer w Ha Hb.
  - cbn [range_from add_pages firstn]. now rewrite app_nil_r.
  - cbn [range_from add_pages]. unfold bind, read_page.
    destruct (pages_getitem_inside (source w) a) as [page [Hnth Hget]];
      [lia|].
    rewrite Hget. rewrite IH by lia.
    rewrite (skipn_cons_nth _ _ _ Hnth). cbn [firstn].
    replace (Z.to_nat (a + 1)) with (S (Z.to_nat a)) by lia.
    now rewrite <- app_assoc.
Qed.

Lemma is_blank_page_inside (reader : list Page) (p : Z) :
  0 <= p < Z.of_nat (length reader) ->
  exists blank, is_blank_page reader p = Some blank.
Proof.
  intros H. destruct (pages_getitem_inside reader p H) as [page [_ Hget]].
  unfold is_blank_page. rewrite Hget.
  destruct (contents_missing page); [eauto|].
  destruct (text_missing page); eauto.
Qed.

(** The last page kept is the last page of the range, or the one before
    when that is blank and is not the only page. *)
Definition trimmed_end (info : ChapterRange) (blank : bool) : Z :=
  if blank
  then Z.max (start_page info - 1) (end_page info - 1 - 1)
  else end_page info - 1.

Lemma trimmed_end_bounds (info : ChapterRange) (blank : bool) :
  start_page info <= end_page info ->
  start_page info - 1 <= trimmed_end info blank <= end_page info - 1
  /\ end_page info - 2 <= trimmed_end info blank.
Proof. unfold trimmed_end. destruct blank; lia. Qed.

(** A chapter inside the document is written without an exception: one
    file, holding the pages from [start_page] to the last page kept. *)
Lemma split_chapter_run (use_chapter_names : bool) (i : nat)
    (info : ChapterRange) (w : world) :
  1 <= start_page info -> start_page info <= end_page info ->
  end_page info <= Z.of_nat (length (source w)) ->
  exists blank,
    is_blank_page (source w) (end_page info - 1) = Some blank
    /\ last_page_to_include (source w) info = Some (trimmed_end info blank)
    /\ split_chapter use_chapter_names i info w
       = (Some tt,
          mkWorld (source w)
            (written w
             ++ [(chapter_filename use_chapter_names i info,
                  slice (source w) (start_page info - 1)
                    (trimmed_end info blank + 1))])).
Proof.
  intros H1 H2 H3.
  destruct (is_blank_page_inside (source w) (end_page info - 1)) as [blank Hb];
    [lia|].
  exists blank. split; [exact Hb|]. split.
  - unfold last_page_to_include. now rewrite Hb.
  - unfold split_chapter. cbv zeta. unfold bind at 1. unfold test_blank.
    rewrite Hb. fold (trimmed_end info blank).
    pose proof (trimmed_end_bounds info blank H2) as Hl.
    unfold bind, py_range. rewrite add_pages_range by lia.
    reflexivity.
Qed.

Lemma length_slice (pages : list Page) (a b : Z) :
  0 <= a -> a <= b -> b <= Z.of_nat (length pages) ->
  Z.of_nat (length (slice pages a b)) = b - a.
Proof.
  intros Ha Hab Hb. unfold slice.
  rewrite length_firstn, length_skipn. lia.
Qed.

Lemma nth_error_slice (pages : list Page) (a b : Z) (k : nat) :
  nth_error (slice pages a b) k
  = if (k <? Z.to_nat (b - a))%nat
    then nth_error pages (Z.to_nat a + k)
    else None.
Proof.
  unfold slice. rewrite nth_error_firstn, nth_error_skipn. reflexivity.
Qed.

Lemma slice_prefix (pages : list Page) (a b c : Z) :
  b <= c ->
  firstn (Z.to_nat (b - a)) (slice pages a c) = slice pages a b.
Proof.
  intros H. unfold slice. rewrite firstn_firstn.
  f_equal. lia.
Qed.

(** C3 (amended): only the last page of a range is tested.  For a range
    with [start_page <= end_page] the last page kept is [end_page] or the
    page before, and never below [start_page].  A range that lies inside
    the document is written with at least one page: all its pages when the
    last one is not blank, one page fewer when the last one is blank and
    the range has several pages, and its single page when the range has
    one page only, blank or not. *)
Theorem trimming_keeps_a_page (use_chapter_names : bool) (i : nat)
    (info : ChapterRange) (w : world) :
  (forall last,
      start_page info <= end_page info ->
      last_page_to_include (source w) info = Some last ->
      start_page info - 1 <= last <= end_page info - 1
      /\ end_page info - 2 <= last)
  /\ (1 <= start_page info -> start_page info <= end_page info ->
      end_page info <= Z.of_nat (length (source w)) ->
      exists blank last out,
        is_blank_page (source w) (end_page info - 1) = Some blank
        /\ last_page_to_include (source w) info = Some last
        /\ split_chapter use_chapter_names i info w
           = (Some tt,
              mkWorld (source w)
                (written w
                 ++ [(chapter_filename use_chapter_names i info, out)]))
        /\ 1 <= Z.of_nat (length out)
        /\ Z.of_nat (length out) = last - (start_page info - 1) + 1
        /\ firstn (Z.to_nat (end_page info - start_page info)) out
           = slice (source w) (start_page info - 1) (end_page info - 1)
        /\ (blank = false ->
            Z.of_nat (length out) = end_page info - start_page info + 1)
        /\ (blank = true -> start_page info < end_page info ->
            Z.of_nat (length out)
            = end_page info - start_page info + 1 - 1)
        /\ (blank = true -> start_page info = end_page info ->
            Z.of_nat (length out) = 1)).
Proof.
  split.
  - intros last Hinv. unfold last_page_to_include.
    destruct (is_blank_page (source w) (end_page info - 1)) as [blank|];
      [|discriminate].
    intros H. injection H as <-.
    exact (trimmed_end_bounds info blank Hinv).
  - intros H1 H2 H3.
    destruct (split_chapter_run use_chapter_names i info w H1 H2 H3)
      as [blank [Hb [Hlast Hrun]]].
    pose proof (trimmed_end_bounds info blank H2) as Hl.
    exists blank, (trimmed_end info blank),
      (slice (source w) (start_page info - 1) (trimmed_end info blank + 1)).
    assert (Hlen : Z.of_nat
              (length (slice (source w) (start_page info - 1)
                         (trimmed_end info blank + 1)))
            = trimmed_end info blank + 1 - (start_page info - 1))
      by (apply length_slice; lia).
    repeat split; try assumption; try lia.
    + replace (end_page info - start_page info)
        with (end_page info - 1 - (start_page info - 1)) by lia.
      apply slice_prefix. lia.
    + intros ->. rewrite Hlen. unfold trimmed_end. lia.
    + intros -> Hlt. rewrite Hlen. unfold trimmed_end. lia.
Qed.

(** C5: for a range with [1 <= start_page <= end_page], a chapter that
    lies inside the document is written as one file holding the pages
    from [start_page] to the last page kept, both included, in the order
    of the document: the page at position [k] of the file is the page at
    position [start_page - 1 + k] of the source, and there is no page
    after position [last - (start_page - 1)].  A chapter that ends after
    the last page of the document raises, and nothing is written. *)
Theorem split_chapter_pages (use_chapter_names : bool) (i : nat)
    (info : ChapterRange) (w : world) :
  1 <= start_page info -> start_page info <= end_page info ->
  (end_page info <= Z.of_nat (length (source w)) ->
   exists last out,
     last_page_to_include (source w) info = Some last
     /\ split_chapter use_chapter_names i info w
        = (Some tt,
           mkWorld (source w)
             (written w
              ++ [(chapter_filename use_chapter_names i info, out)]))
     /\ out = slice (source w) (start_page info - 1) (last + 1)
     /\ Z.of_nat (length out) = last - (start_page info - 1) + 1
     /\ (forall k : nat,
           nth_error out k
           = if Z.of_nat k <=? last - (start_page info - 1)
             then nth_error (source w) (Z.to_nat (start_page info - 1) + k)
             else None))
  /\ (Z.of_nat (length (source w)) < end_page info ->
      split_chapter use_chapter_names i info w = (None, w)).
Proof.
  intros H1 H2. split; intros H3.
  - destruct (split_chapter_run use_chapter_names i info w H1 H2 H3)
      as [blank [Hb [Hlast Hrun]]].
    pose proof (trimmed_end_bounds info blank H2) as Hl.
    exists (trimmed_end info blank),
      (slice (source w) (start_page info - 1) (trimmed_end info blank + 1)).
    repeat split; try assumption.
    + rewrite length_slice; lia.
    + intros k. rewrite nth_error_slice.
      destruct (Nat.ltb_spec k
                  (Z.to_nat (trimmed_end info blank + 1
                             - (start_page info - 1))));
        destruct (Z.leb_spec (Z.of_nat k)
                    (trimmed_end info blank - (start_page info - 1)));
        try reflexivity; lia.
  - unfold split_chapter. cbv zeta. unfold bind at 1.
    unfold test_blank, is_blank_page.
    now rewrite pages_getitem_beyond by lia.
Qed.

(** *** The source document and the independence of the chapters *)

(** A statement that only reads the source document: it leaves it as it
    is, and its result and the files it appends are the same in any two
    worlds that hold the same source, whatever was written before. *)
Definition reads_source {A : Type} (m : M A) : Prop :=
  forall w1 w2,
    source w1 = source w2 ->
    fst (m w1) = fst (m w2)
    /\ source (snd (m w1)) = source w1
    /\ exists files,
         written (snd (m w1)) = written w1 ++ files
         /\ written (snd (m w2)) = written w2 ++ files.

(** Splitting the chapters one at a time, in the order of the ranges:
    [split_pdf] with [only_index] 0, then 1, and so on up to [n - 1]. *)
Fixpoint one_by_one (ranges : list ChapterRange) (use_chapter_names : bool)
    (n : nat) : M unit :=
  match n with
  | O => ret tt
  | S k =>
      one_by_one ranges use_chapter_names k ;;
      split_pdf ranges use_chapter_names (Some (Z.of_nat k))
  end.

Lemma reads_ret {A : Type} (a : A) : reads_source (ret a).
Proof.
  intros w1 w2 _. cbn. repeat split. exists []. now rewrite !app_nil_r.
Qed.

Lemma reads_bind {A B : Type} (m : M A) (k : A -> M B) :
  reads_source m -> (forall a, reads_source (k a)) -> reads_source (bind m k).
Proof.
  intros Hm Hk w1 w2 Hs.
  destruct (Hm w1 w2 Hs) as [Hr [Hs1 [files [Hw1 Hw2]]]].
  destruct (Hm w2 w1 (eq_sym Hs)) as [_ [Hs2 _]].
  unfold bind.
  destruct (m w1) as [r1 w1'], (m w2) as [r2 w2'].
  cbn [fst snd] in *. subst r2.
  destruct r1 as [a|]; cbn [fst snd].
  - assert (Hs' : source w1' = source w2') by congruence.
    destruct (Hk a w1' w2' Hs') as [Hr' [Hs1' [files' [Hw1' Hw2']]]].
    split; [exact Hr'|]. split; [congruence|].
    exists (files ++ files').
    rewrite Hw1', Hw2', Hw1, Hw2, !app_assoc. auto.
  - split; [reflexivity|]. split; [exact Hs1|]. now exists files.
Qed.

Lemma reads_read_page (p : Z) : reads_source (read_page p).
Proof.
  intros w1 w2 Hs. unfold read_page. cbn [fst snd]. rewrite Hs.
  repeat split. exists []. now rewrite !app_nil_r.
Qed.

Lemma reads_test_blank (p : Z) : reads_source (test_blank p).
Proof.
  intros w1 w2 Hs. unfold test_blank. cbn [fst snd]. rewrite Hs.
  repeat split. exists []. now rewrite !app_nil_r.
Qed.

Lemma reads_write_file (filename : pystr) (writer : list Page) :
  reads_source (write_file filename writer).
Proof.
  intros w1 w2 _. unfold write_file. cbn. repeat split.
  now exists [(filename, writer)].
Qed.

Lemma reads_add_pages (ps : list Z) :
  forall writer, reads_source (add_pages ps writer).
Proof.
  induction ps as [|p ps IH]; intros writer; cbn [add_pages].
  - apply reads_ret.
  - apply reads_bind; [apply reads_read_page|]. intros page. apply IH.
Qed.

Lemma reads_split_chapter (use_chapter_names : bool) (i : nat)
    (info : ChapterRange) :
  reads_source (split_chapter use_chapter_names i info).
Proof.
  unfold split_chapter. cbv zeta.
  apply reads_bind; [apply reads_test_blank|]. intros blank.
  apply reads_bind; [apply reads_add_pages|]. intros writer.
  apply reads_write_file.
Qed.

Lemma reads_split_pdf_loop (use_chapter_names : bool) (only_index : option Z)
    (ranges : list ChapterRange) :
  forall i, reads_source (split_pdf_loop use_chapter_names only_index i ranges).
Proof.
  induction ranges as [|info ranges IH]; intros i; cbn [split_pdf_loop].
  - apply reads_ret.
  - cbv zeta.
    destruct (match only_index with
              | Some k => negb (Z.of_nat i =? k)
              | None => false
              end).
    + apply IH.
    + apply reads_bind; [apply reads_split_chapter|]. intros _. apply IH.
Qed.

Lemma bind_unit_ret (m : M unit) (w : world) : (m ;; ret tt) w = m w.
Proof.
  unfold bind, ret. destruct (m w) as [[[]|] w']; reflexivity.
Qed.

Lemma split_pdf_loop_skips (use_chapter_names : bool) (k : Z)
    (ranges : list ChapterRange) :
  forall (i : nat) (w : world),
    (forall j, (i <= j < i + length ranges)%nat -> Z.of_nat j <> k) ->
    split_pdf_loop use_chapter_names (Some k) i ranges w = (Some tt, w).
Proof.
  induction ranges as [|info ranges IH]; intros i w H; [reflexivity|].
  cbn [split_pdf_loop length] in *. cbv zeta.
  replace (Z.of_nat i =? k) with false
    by (symmetry; apply Z.eqb_neq, H; lia).
  cbn [negb]. apply IH. intros j Hj. apply H. lia.
Qed.

Lemma split_pdf_loop_app (use_chapter_names : bool) (only_index : option Z)
    (r1 r2 : list ChapterRange) :
  forall (i : nat) (w : world),
    split_pdf_loop use_chapter_names only_index i (r1 ++ r2) w
    = (split_pdf_loop use_chapter_names only_index i r1 ;;
       split_pdf_loop use_chapter_names only_index (i + length r1) r2) w.
Proof.
  induction r1 as [|info r1 IH]; intros i w.
  - cbn [app length]. now rewrite Nat.add_0_r.
  - cbn [app length split_pdf_loop]. cbv zeta.
    replace (i + S (length r1))%nat with (S i + length r1)%nat by lia.
    destruct (match only_index with
              | Some k => negb (Z.of_nat i =? k)
              | None => false
              end).
    + apply IH.
    + unfold bind at 1 2 3.
      destruct (split_chapter use_chapter_names i info w) as [[u|] w'];
        [apply IH | reflexivity].
Qed.

Lemma split_pdf_single (use_chapter_names : bool) (pre : list ChapterRange)
    (info : ChapterRange) (post : list ChapterRange) (w : world) :
  split_pdf (pre ++ info :: post) use_chapter_names
    (Some (Z.of_nat (length pre))) w
  = split_chapter use_chapter_names (length pre) info w.
Proof.
  unfold split_pdf. rewrite split_pdf_loop_app. unfold bind at 1.
  rewrite split_pdf_loop_skips by (intros j Hj; lia).
  cbn [split_pdf_loop Nat.add]. cbv zeta.
  rewrite Z.eqb_refl. cbn [negb]. unfold bind.
  destruct (split_chapter use_chapter_names (length pre) info w)
    as [[[]|] w']; [|reflexivity].
  apply split_pdf_loop_skips. intros j Hj. lia.
Qed.

Lemma firstn_succ_nth {A : Type} (l : list A) :
  forall (n : nat) (x : A),
    nth_error l n = Some x -> firstn (S n) l = firstn n l ++ [x].
Proof.
  induction l as [|y l IH]; intros [|n] x H; try discriminate.
  - cbn in H. now injection H as ->.
  - cbn [nth_error] in H. cbn [firstn app]. f_equal. now apply IH.
Qed.

Lemma one_by_one_prefix (ranges : list ChapterRange)
    (use_chapter_names : bool) (n : nat) :
  (n <= length ranges)%nat ->
  forall w,
    one_by_one ranges use_chapter_names n w
    = split_pdf_loop use_chapter_names None 0 (firstn n ranges) w.
Proof.
  induction n as [|n IH]; intros Hn w; [reflexivity|].
  destruct (nth_error ranges n) as [info|] eqn:E;
    [|apply nth_error_None in E; lia].
  rewrite (firstn_succ_nth _ _ _ E), split_pdf_loop_app.
  cbn [one_by_one]. unfold bind at 1 2.
  rewrite IH by lia.
  destruct (split_pdf_loop use_chapter_names None 0 (firstn n ranges) w)
    as [[u|] w']; [|reflexivity].
  destruct (nth_error_split _ _ E) as [pre [post [Hr Hlen]]].
  rewrite length_firstn, Nat.min_l by lia.
  cbn [split_pdf_loop Nat.add]. cbv zeta. rewrite bind_unit_ret.
  rewrite Hr at 1. rewrite <- Hlen. apply split_pdf_single.
Qed.

(** C8: [split_pdf] leaves the source document as it is, whatever the
    ranges and the options, and also when it raises.  The file of a
    chapter depends on the source and on the chapter only, not on what
    was written before: in two worlds with the same source the chapter
    gives the same result and appends the same files.  A split of all
    chapters is the sequence of the splits of the single chapters, and
    the split of a single chapter is the body of the loop for it. *)
Theorem split_pdf_frame (ranges : list ChapterRange)
    (use_chapter_names : bool) :
  (forall only_index w,
      source (snd (split_pdf ranges use_chapter_names only_index w))
      = source w)
  /\ (forall i info w1 w2,
        source w1 = source w2 ->
        fst (split_chapter use_chapter_names i info w1)
        = fst (split_chapter use_chapter_names i info w2)
        /\ exists files,
             written (snd (split_chapter use_chapter_names i info w1))
             = written w1 ++ files
             /\ written (snd (split_chapter use_chapter_names i info w2))
                = written w2 ++ files)
  /\ (forall w,
        split_pdf ranges use_chapter_names None w
        = one_by_one ranges use_chapter_names (length ranges) w)
  /\ (forall k info w,
        nth_error ranges k = Some info ->
        split_pdf ranges use_chapter_names (Some (Z.of_nat k)) w
        = split_chapter use_chapter_names k info w).
Proof.
  split; [|split; [|split]].
  - intros only_index w.
    now destruct (reads_split_pdf_loop use_chapter_names only_index ranges
                    0%nat w w eq_refl) as [_ [H _]].
  - intros i info w1 w2 Hs.
    destruct (reads_split_chapter use_chapter_names i info w1 w2 Hs)
      as [H1 [_ H2]].
    now split.
  - intros w. rewrite one_by_one_prefix by lia.
    now rewrite firstn_all.
  - intros k info w E.
    destruct (nth_error_split _ _ E) as [pre [post [Hr Hlen]]].
    rewrite Hr, <- Hlen. apply split_pdf_single.
Qed.

End Interpreter.

(** ** Instances *)

(** The whitespace code points above 127 (Unicode 6.3 and later): NEL,
    the no-break spaces, the Ogham space mark, the spaces U+2000 to
    U+200A, the line and paragraph separators, U+205F and U+3000. *)
Definition unicode_space (c : char) : bool :=
  ((c =? 133) || (c =? 160) || (c =? 5760)
   || ((8192 <=? c) && (c <=? 8202))
   || (c =? 8232) || (c =? 8233) || (c =? 8239) || (c =? 8287)
   || (c =? 12288))%N.

(** A fragment of the alphanumeric table, enough for the examples: the
    letters of Latin-1 and of Latin Extended-A. *)
Definition latin_alnum (c : char) : bool :=
  ((c =? 170) || (c =? 181) || (c =? 186)
   || ((192 <=? c) && (c <=? 214))
   || ((216 <=? c) && (c <=? 246))
   || ((248 <=? c) && (c <=? 383)))%N.

(** A page with a content stream and the given text. *)
Definition text_page (t : string) : Page :=
  mkPage (Returns (Some [66; 84]%N)) (Returns (Some (str t))).

(** A page whose contents cannot be read and whose text is two spaces. *)
Definition unreadable_page : Page :=
  mkPage Raises (Returns (Some (str "  "))).

(** Five pages, the last one without text. *)
Definition five_pages : list Page :=
  [text_page "one"; text_page "two"; text_page "three"; text_page "four";
   text_page ""].

Example sanitize_path :
  _sanitize_filename unicode_space latin_alnum (str "  08-a//\b:  c..d?  ")
  = str "08-a-b c..d".
Proof. reflexivity. Qed.

Example sanitize_slovene :
  _sanitize_filename unicode_space latin_alnum
    ([48; 56; 45; 90; 97; 269; 101; 116; 101; 107; 160; 47; 8364; 32; 49]%N)
  = [48; 56; 45; 90; 97; 269; 101; 116; 101; 107; 45; 32; 49]%N.
Proof. reflexivity. Qed.

Example split_two_chapters :
  split_pdf unicode_space latin_alnum
    [mkChapterRange (str "A") 1 2; mkChapterRange (str "B/C") 3 5]
    false None (mkWorld five_pages [])
  = (Some tt,
     mkWorld five_pages
       [(str "01-A.pdf", [text_page "one"; text_page "two"]);
        (str "02-B-C.pdf", [text_page "three"; text_page "four"])]).
Proof. reflexivity. Qed.

Example split_beyond_the_document :
  split_pdf unicode_space latin_alnum
    [mkChapterRange (str "A") 1 2; mkChapterRange (str "B") 3 6]
    true None (mkWorld five_pages [])
  = (None,
     mkWorld five_pages
       [(str "01-mol-bio.pdf", [text_page "one"; text_page "two"])]).
Proof. reflexivity. Qed.

(** C3 as stated fails: a chapter that consists of one blank page is
    written with that page, not with one page fewer than its range. *)
Lemma trimming_single_blank_page :
  is_blank_page unicode_space five_pages (5 - 1) = Some true
  /\ split_chapter unicode_space latin_alnum true 0
       (mkChapterRange (str "A") 5 5) (mkWorld five_pages [])
     = (Some tt, mkWorld five_pages [(str "01-mol-bio.pdf", [text_page ""])])
  /\ Z.of_nat (length [text_page ""]) <> 5 - 5 + 1 - 1.
Proof.
  split; [reflexivity|]. split; [reflexivity|]. cbn. lia.
Qed.

(** C3, an instance: pages 2 to 5 of [five_pages]. *)
Lemma trimming_keeps_a_page_witness :
  exists blank last out,
    is_blank_page unicode_space (source (mkWorld five_pages []))
      (end_page (mkChapterRange (str "A") 2 5) - 1) = Some blank
    /\ last_page_to_include unicode_space (source (mkWorld five_pages []))
         (mkChapterRange (str "A") 2 5) = Some last
    /\ split_chapter unicode_space latin_alnum false 0
         (mkChapterRange (str "A") 2 5) (mkWorld five_pages [])
       = (Some tt,
          mkWorld (source (mkWorld five_pages []))
            (written (mkWorld five_pages [])
             ++ [(chapter_filename unicode_space latin_alnum false 0
                    (mkChapterRange (str "A") 2 5), out)]))
    /\ 1 <= Z.of_nat (length out)
    /\ Z.of_nat (length out)
       = last - (start_page (mkChapterRange (str "A") 2 5) - 1) + 1
    /\ firstn (Z.to_nat (end_page (mkChapterRange (str "A") 2 5)
                         - start_page (mkChapterRange (str "A") 2 5))) out
       = slice (source (mkWorld five_pages []))
           (start_page (mkChapterRange (str "A") 2 5) - 1)
           (end_page (mkChapterRange (str "A") 2 5) - 1)
    /\ (blank = false ->
        Z.of_nat (length out)
        = end_page (mkChapterRange (str "A") 2 5)
          - start_page (mkChapterRange (str "A") 2 5) + 1)
    /\ (blank = true ->
        start_page (mkChapterRange (str "A") 2 5)
        < end_page (mkChapterRange (str "A") 2 5) ->
        Z.of_nat (length out)
        = end_page (mkChapterRange (str "A") 2 5)
          - start_page (mkChapterRange (str "A") 2 5) + 1 - 1)
    /\ (blank = true ->
        start_page (mkChapterRange (str "A") 2 5)
        = end_page (mkChapterRange (str "A") 2 5) ->
        Z.of_nat (length out) = 1).
Proof.
  apply (proj2 (trimming_keeps_a_page unicode_space latin_alnum false 0
                  (mkChapterRange (str "A") 2 5) (mkWorld five_pages [])));
    cbn; lia.
Defined.

(** C4 as stated fails: the access to the contents of [unreadable_page]
    raises, and yet the page is reported blank, because the test falls
    back on its text. *)
Lemma is_blank_page_falls_back_on_text :
  get_contents unreadable_page = Raises
  /\ is_blank_page unicode_space [text_page "one"; unreadable_page] 1
     = Some true.
Proof. split; reflexivity. Qed.

(** C4, an instance: the second page of a two-page document. *)
Lemma is_blank_page_spec_witness :
  exists blank,
    is_blank_page unicode_space [text_page "one"; unreadable_page] 1
    = Some blank
    /\ (blank = true <->
        get_contents unreadable_page = Returns None
        \/ exists t, extract_text unreadable_page = Returns t
                     /\ Forall (fun c => isspace unicode_space c = true)
                          (text_or_empty t))
    /\ (extract_text unreadable_page = Raises ->
        (blank = true <-> get_contents unreadable_page = Returns None))
    /\ (get_contents unreadable_page = Raises ->
        (blank = true <->
         exists t, extract_text unreadable_page = Returns t
                   /\ Forall (fun c => isspace unicode_space c = true)
                        (text_or_empty t)))
    /\ (get_contents unreadable_page = Raises ->
        extract_text unreadable_page = Raises -> blank = false).
Proof.
  apply (proj2 (is_blank_page_spec unicode_space)
           [text_page "one"; unreadable_page] 1 unreadable_page).
  reflexivity.
Defined.

(** C5, an instance: pages 2 to 5 of [five_pages], of which the last is
    blank. *)
Lemma split_chapter_pages_witness :
  exists last out,
    last_page_to_include unicode_space (source (mkWorld five_pages []))
      (mkChapterRange (str "A") 2 5) = Some last
    /\ split_chapter unicode_space latin_alnum false 0
         (mkChapterRange (str "A") 2 5) (mkWorld five_pages [])
       = (Some tt,
          mkWorld (source (mkWorld five_pages []))
            (written (mkWorld five_pages [])
             ++ [(chapter_filename unicode_space latin_alnum false 0
                    (mkChapterRange (str "A") 2 5), out)]))
    /\ out = slice (source (mkWorld five_pages []))
               (start_page (mkChapterRange (str "A") 2 5) - 1) (last + 1)
    /\ Z.of_nat (length out)
       = last - (start_page (mkChapterRange (str "A") 2 5) - 1) + 1
    /\ (forall k : nat,
          nth_error out k
          = if Z.of_nat k
               <=? last - (start_page (mkChapterRange (str "A") 2 5) - 1)
            then nth_error (source (mkWorld five_pages []))
                   (Z.to_nat (start_page (mkChapterRange (str "A") 2 5) - 1)
                    + k)
            else None).
Proof.
  apply (proj1 (split_chapter_pages unicode_space latin_alnum false 0
                  (mkChapterRange (str "A") 2 5) (mkWorld five_pages [])
                  ltac:(cbn; lia) ltac:(cbn; lia)));
    cbn; lia.
Defined.


(** C8, an instance: splitting the second of two chapters only. *)
Lemma split_pdf_frame_witness :
  split_pdf unicode_space latin_alnum
    [mkChapterRange (str "A") 1 2; mkChapterRange (str "B") 3 5]
    false (Some (Z.of_nat 1)) (mkWorld five_pages [])
  = split_chapter unicode_space latin_alnum false 1
      (mkChapterRange (str "B") 3 5) (mkWorld five_pages []).
Proof.
  apply (proj2 (proj2 (proj2
           (split_pdf_frame unicode_space latin_alnum
              [mkChapterRange (str "A") 1 2; mkChapterRange (str "B") 3 5]
              false)))).
  reflexivity.
Defined.

(** * Further properties *)

From Stdlib Require Import DecimalN.

(** ** The split of several chapters *)

Section Chapters.

Variable uni_space : char -> bool.
Variable uni_alnum : char -> bool.

(** A range of the data model that lies inside the document. *)
Definition in_document (pages : list Page) (info : ChapterRange) : Prop :=
  1 <= start_page info
  /\ start_page info <= end_page info
  /\ end_page info <= Z.of_nat (length pages).

(** The pages a chapter inside the document keeps. *)
Definition kept_pages (pages : list Page) (info : ChapterRange) : list Page :=
  match last_page_to_include uni_space pages info with
  | Some last => slice pages (start_page info - 1) (last + 1)
  | None => []
  end.

(** The files of the chapters of [ranges], the first being at position
    [i] of the enumeration. *)
Fixpoint files_of (pages : list Page) (use_chapter_names : bool) (i : nat)
    (ranges : list ChapterRange) : list (pystr * list Page) :=
  match ranges with
  | [] => []
  | info :: ranges' =>
      (chapter_filename uni_space uni_alnum use_chapter_names i info,
       kept_pages pages info)
        :: files_of pages use_chapter_names (S i) ranges'
  end.

Lemma files_of_length (pages : list Page) (use_chapter_names : bool)
    (ranges : list ChapterRange) :
  forall i, length (files_of pages use_chapter_names i ranges) = length ranges.
Proof.
  induction ranges as [|info ranges IH]; intros i; cbn [files_of length];
    [reflexivity | now rewrite IH].
Qed.

Lemma files_of_nth (pages : list Page) (use_chapter_names : bool)
    (ranges : list ChapterRange) :
  forall i k info,
    nth_error ranges k = Some info ->
    nth_error (files_of pages use_chapter_names i ranges) k
    = Some (chapter_filename uni_space uni_alnum use_chapter_names
              (i + k) info,
            kept_pages pages info).
Proof.
  induction ranges as [|r ranges IH]; intros i [|k] info H; try discriminate.
  - cbn in H. injection H as ->. cbn [files_of nth_error].
    now rewrite Nat.add_0_r.
  - cbn [nth_error] in H. cbn [files_of nth_error].
    rewrite (IH (S i) k info H).
    replace (S i + k)%nat with (i + S k)%nat by lia. reflexivity.
Qed.

Lemma split_chapter_in_document (use_chapter_names : bool) (i : nat)
    (info : ChapterRange) (w : world) :
  in_document (source w) info ->
  split_chapter uni_space uni_alnum use_chapter_names i info w
  = (Some tt,
     mkWorld (source w)
       (written w
        ++ [(chapter_filename uni_space uni_alnum use_chapter_names i info,
             kept_pages (source w) info)])).
Proof.
  intros [H1 [H2 H3]].
  destruct (split_chapter_run uni_space uni_alnum use_chapter_names i info w
              H1 H2 H3) as [blank [_ [Hlast Hrun]]].
  unfold kept_pages. now rewrite Hlast.
Qed.

Lemma split_chapter_beyond (use_chapter_names : bool) (i : nat)
    (info : ChapterRange) (w : world) :
  Z.of_nat (length (source w)) < end_page info ->
  split_chapter uni_space uni_alnum use_chapter_names i info w = (None, w).
Proof.
  intros H. unfold split_chapter. cbv zeta. unfold bind at 1.
  unfold test_blank, is_blank_page.
  now rewrite pages_getitem_beyond by lia.
Qed.

Lemma split_pdf_loop_in_document (use_chapter_names : bool)
    (ranges : list ChapterRange) :
  forall (i : nat) (w : world),
    Forall (in_document (source w)) ranges ->
    split_pdf_loop uni_space uni_alnum use_chapter_names None i ranges w
    = (Some tt,
       mkWorld (source w)
         (written w ++ files_of (source w) use_chapter_names i ranges)).
Proof.
  induction ranges as [|info ranges IH]; intros i w H.
  - cbn. rewrite app_nil_r. now destruct w.
  - inversion H as [|x l Hinfo Hrest]; subst.
    cbn [split_pdf_loop files_of]. cbv zeta. unfold bind.
    rewrite (split_chapter_in_document _ _ _ _ Hinfo).
    rewrite IH by exact Hrest. cbn [source written].
    now rewrite <- app_assoc.
Qed.

Lemma files_of_in_document (pages : list Page) (use_chapter_names : bool)
    (ranges : list ChapterRange) (k : nat) (info : ChapterRange) :
  Forall (in_document pages) ranges ->
  nth_error ranges k = Some info ->
  exists last,
    last_page_to_include uni_space pages info = Some last
    /\ start_page info - 1 <= last <= end_page info - 1
    /\ nth_error (files_of pages use_chapter_names 0 ranges) k
       = Some (chapter_filename uni_space uni_alnum use_chapter_names k info,
               slice pages (start_page info - 1) (last + 1)).
Proof.
  intros H Hk.
  assert (Hin : in_document pages info).
  { rewrite Forall_forall in H. eapply H, nth_error_In, Hk. }
  destruct Hin as [H1 [H2 H3]].
  destruct (is_blank_page_inside uni_space pages (end_page info - 1))
    as [blank Hb]; [lia|].
  exists (trimmed_end info blank).
  assert (Hlast : last_page_to_include uni_space pages info
                  = Some (trimmed_end info blank))
    by (unfold last_page_to_include; now rewrite Hb).
  split; [exact Hlast|].
  split; [apply trimmed_end_bounds, H2|].
  rewrite (files_of_nth _ _ _ 0%nat k info Hk). cbn [Nat.add].
  unfold kept_pages. now rewrite Hlast.
Qed.

(** X1: when every range lies inside the document, the split of all chapters
    completes without an exception and appends one file per range, in the
    order of the ranges: the file of the range at position [k] has the
    name chosen for position [k] and holds the pages from its
    [start_page] to the last page it keeps. *)
Theorem split_pdf_in_document (ranges : list ChapterRange)
    (use_chapter_names : bool) (w : world) :
  Forall (in_document (source w)) ranges ->
  exists files,
    split_pdf uni_space uni_alnum ranges use_chapter_names None w
    = (Some tt, mkWorld (source w) (written w ++ files))
    /\ length files = length ranges
    /\ forall k info,
         nth_error ranges k = Some info ->
         exists last,
           last_page_to_include uni_space (source w) info = Some last
           /\ start_page info - 1 <= last <= end_page info - 1
           /\ nth_error files k
              = Some (chapter_filename uni_space uni_alnum use_chapter_names
                        k info,
                      slice (source w) (start_page info - 1) (last + 1)).
Proof.
  intros H. exists (files_of (source w) use_chapter_names 0 ranges).
  split; [apply split_pdf_loop_in_document, H|].
  split; [apply files_of_length|].
  intros k info Hk. now apply files_of_in_document.
Qed.

(** X3: the first chapter that ends after the last page of the document
    stops the split with an exception: the files of the chapters before
    it have been written and stay, and nothing is written for it or for
    the chapters after it. *)
Theorem split_pdf_stops_at_first_failure (pre : list ChapterRange)
    (bad : ChapterRange) (post : list ChapterRange)
    (use_chapter_names : bool) (w : world) :
  Forall (in_document (source w)) pre ->
  Z.of_nat (length (source w)) < end_page bad ->
  split_pdf uni_space uni_alnum (pre ++ bad :: post) use_chapter_names None w
  = (None,
     mkWorld (source w)
       (written w ++ files_of (source w) use_chapter_names 0 pre))
  /\ split_pdf uni_space uni_alnum pre use_chapter_names None w
     = (Some tt,
        mkWorld (source w)
          (written w ++ files_of (source w) use_chapter_names 0 pre)).
Proof.
  intros Hpre Hbad. unfold split_pdf.
  rewrite split_pdf_loop_app. unfold bind.
  rewrite (split_pdf_loop_in_document _ _ _ _ Hpre).
  split; [|reflexivity].
  cbn [split_pdf_loop]. cbv zeta. unfold bind.
  now rewrite split_chapter_beyond.
Qed.

(** X4: a chapter index that is negative or not below the number of ranges
    selects no chapter: the split completes and writes nothing. *)
Theorem split_pdf_index_out_of_range (ranges : list ChapterRange)
    (use_chapter_names : bool) (k : Z) (w : world) :
  k < 0 \/ Z.of_nat (length ranges) <= k ->
  split_pdf uni_space uni_alnum ranges use_chapter_names (Some k) w
  = (Some tt, w).
Proof.
  intros H. unfold split_pdf. apply split_pdf_loop_skips.
  intros j Hj. lia.
Qed.

Lemma firstn_plus {A : Type} (m n : nat) :
  forall l : list A, firstn (m + n) l = firstn m l ++ firstn n (skipn m l).
Proof.
  induction m as [|m IH]; intros l; [reflexivity|].
  destruct l as [|x l]; cbn [Nat.add firstn skipn app].
  - now rewrite firstn_nil.
  - now rewrite IH.
Qed.

Lemma slice_app (pages : list Page) (a b c : Z) :
  0 <= a -> a <= b -> b <= c ->
  slice pages a b ++ slice pages b c = slice pages a c.
Proof.
  intros Ha Hab Hbc. unfold slice.
  replace (Z.to_nat (c - a)) with (Z.to_nat (b - a) + Z.to_nat (c - b))%nat
    by lia.
  rewrite firstn_plus, skipn_skipn.
  replace (Z.to_nat (b - a) + Z.to_nat a)%nat with (Z.to_nat b) by lia.
  reflexivity.
Qed.

Lemma kept_pages_not_blank (pages : list Page) (info : ChapterRange) :
  is_blank_page uni_space pages (end_page info - 1) = Some false ->
  kept_pages pages info
  = slice pages (start_page info - 1) (end_page info).
Proof.
  intros H. unfold kept_pages, last_page_to_include. rewrite H.
  f_equal. lia.
Qed.

Lemma last_cons {A : Type} (rest : list A) :
  forall a d : A, last (a :: rest) d = last rest a.
Proof.
  induction rest as [|b rest IH]; intros a d; [reflexivity|].
  change (last (a :: b :: rest) d) with (last (b :: rest) d).
  now rewrite !IH.
Qed.

Lemma tiles_last_end (total : Z) (rest : list ChapterRange) :
  forall first,
    tiles_document (first :: rest) total ->
    end_page first <= end_page (last rest first).
Proof.
  induction rest as [|next rest IH]; intros first [Hb Hc]; [cbn; lia|].
  inversion Hb as [|x l Hx Hb']; subst. destruct Hc as [Hadj Hc'].
  assert (Ht : tiles_document (next :: rest) total) by now split.
  specialize (IH next Ht). rewrite last_cons.
  inversion Hb' as [|y l' Hy _]; subst. lia.
Qed.

Lemma files_of_cover (pages : list Page) (use_chapter_names : bool)
    (rest : list ChapterRange) :
  forall (first : ChapterRange) (i : nat),
    1 <= start_page first ->
    tiles_document (first :: rest) (Z.of_nat (length pages)) ->
    Forall (fun info =>
              is_blank_page uni_space pages (end_page info - 1) = Some false)
      (first :: rest) ->
    Forall (in_document pages) (first :: rest)
    /\ concat (map snd (files_of pages use_chapter_names i (first :: rest)))
       = slice pages (start_page first - 1) (end_page (last rest first)).
Proof.
  induction rest as [|next rest IH]; intros first i H1 [Hb Hc] Hnb.
  - inversion Hb as [|x l Hx _]; subst. inversion Hnb as [|y l' Hy _]; subst.
    split; [constructor; [unfold in_document; lia | constructor]|].
    cbn [files_of map snd concat last]. rewrite app_nil_r.
    now apply kept_pages_not_blank.
  - inversion Hb as [|x l Hx Hb']; subst.
    inversion Hnb as [|y l' Hy Hnb']; subst.
    destruct Hc as [Hadj Hc'].
    assert (Ht : tiles_document (next :: rest) (Z.of_nat (length pages)))
      by now split.
    destruct (IH next (S i)) as [Hin Hcat]; [lia | exact Ht | exact Hnb' |].
    split; [constructor; [unfold in_document; lia | exact Hin]|].
    change (files_of pages use_chapter_names i (first :: next :: rest))
      with ((chapter_filename uni_space uni_alnum use_chapter_names i first,
             kept_pages pages first)
              :: files_of pages use_chapter_names (S i) (next :: rest)).
    cbn [map snd concat]. rewrite Hcat, (kept_pages_not_blank _ _ Hy).
    rewrite last_cons.
    replace (start_page next - 1) with (end_page first) by lia.
    pose proof (tiles_last_end _ _ _ Ht) as Hlast.
    inversion Hb' as [|z l'' Hz _]; subst.
    apply slice_app; lia.
Qed.

(** X2: chapters that follow one another without a gap and whose last pages
    are not blank are written without loss: the split completes, and the
    pages of the files, taken in the order of the chapters, are the pages
    of the document from the first page of the first chapter to the last
    page of the last chapter, each once and in order. *)
Theorem split_pdf_covers (first : ChapterRange) (rest : list ChapterRange)
    (use_chapter_names : bool) (w : world) :
  1 <= start_page first ->
  tiles_document (first :: rest) (Z.of_nat (length (source w))) ->
  Forall (fun info =>
            is_blank_page uni_space (source w) (end_page info - 1)
            = Some false)
    (first :: rest) ->
  exists files,
    split_pdf uni_space uni_alnum (first :: rest) use_chapter_names None w
    = (Some tt, mkWorld (source w) (written w ++ files))
    /\ length files = S (length rest)
    /\ concat (map snd files)
       = slice (source w) (start_page first - 1)
           (end_page (last rest first)).
Proof.
  intros H1 Ht Hnb.
  destruct (files_of_cover (source w) use_chapter_names rest first 0%nat
              H1 Ht Hnb) as [Hin Hcat].
  exists (files_of (source w) use_chapter_names 0 (first :: rest)).
  split; [apply split_pdf_loop_in_document, Hin|].
  split; [apply files_of_length | exact Hcat].
Qed.

(** *** File names of different chapters *)

Definition is_digit (c : char) : bool := ((48 <=? c) && (c <=? 57))%N.

(** [n] in decimal, with the zeros that pad it to two digits. *)
Definition padded (n : N) : Decimal.uint :=
  Nat.iter (2 - length (uint_chars (N.to_uint n))) Decimal.D0 (N.to_uint n).

Lemma uint_chars_inj (d : Decimal.uint) :
  forall d', uint_chars d = uint_chars d' -> d = d'.
Proof.
  induction d as [|d IH|d IH|d IH|d IH|d IH|d IH|d IH|d IH|d IH|d IH];
    intros [|d'|d'|d'|d'|d'|d'|d'|d'|d'|d'] H; cbn [uint_chars] in H;
    try discriminate; try reflexivity;
    injection H as H; f_equal; now apply IH.
Qed.

Lemma uint_chars_is_digit (d : Decimal.uint) :
  Forall (fun c => is_digit c = true) (uint_chars d).
Proof.
  induction d; cbn [uint_chars]; constructor; auto.
Qed.

Lemma uint_chars_zeros (k : nat) (d : Decimal.uint) :
  uint_chars (Nat.iter k Decimal.D0 d) = repeat 48%N k ++ uint_chars d.
Proof.
  induction k as [|k IH]; [reflexivity|].
  cbn [Nat.iter nat_rect repeat app uint_chars]. f_equal. exact IH.
Qed.

Lemma of_uint_zeros (k : nat) (d : Decimal.uint) :
  N.of_uint (Nat.iter k Decimal.D0 d) = N.of_uint d.
Proof.
  induction k as [|k IH]; [reflexivity|]. exact IH.
Qed.

Lemma format_02d_padded (n : N) : format_02d n = uint_chars (padded n).
Proof.
  unfold format_02d, padded. cbv zeta. now rewrite uint_chars_zeros.
Qed.

Lemma format_02d_inj (n m : N) : format_02d n = format_02d m -> n = m.
Proof.
  rewrite !format_02d_padded. intros H. apply uint_chars_inj in H.
  apply (f_equal N.of_uint) in H. unfold padded in H.
  rewrite !of_uint_zeros, !DecimalN.Unsigned.of_to in H. exact H.
Qed.

Lemma format_02d_is_digit (n : N) :
  Forall (fun c => is_digit c = true) (format_02d n).
Proof.
  rewrite format_02d_padded. apply uint_chars_is_digit.
Qed.

Lemma digits_hyphen_inj (a : pystr) :
  forall (b x y : pystr),
    Forall (fun c => is_digit c = true) a ->
    Forall (fun c => is_digit c = true) b ->
    a ++ 45%N :: x = b ++ 45%N :: y -> a = b.
Proof.
  induction a as [|c a IH]; intros [|c' b] x y Ha Hb H; cbn [app] in H.
  - reflexivity.
  - injection H as <- _. inversion Hb as [|? ? Hc _]. discriminate.
  - injection H as -> _. inversion Ha as [|? ? Hc _]. discriminate.
  - injection H as -> H. f_equal.
    inversion Ha; inversion Hb; subst. now apply (IH b x y).
Qed.

(** Every file name begins with the position of the chapter, counted
    from one and written with two digits at least, and a hyphen. *)
Lemma chapter_filename_prefix (use_chapter_names : bool) (i : nat)
    (info : ChapterRange) :
  exists rest,
    chapter_filename uni_space uni_alnum use_chapter_names i info
    = format_02d (N.of_nat i + 1) ++ 45%N :: rest.
Proof.
  unfold chapter_filename.
  destruct (use_chapter_names && (i <? length chapter_names)%nat) eqn:E.
  - apply andb_true_iff in E. destruct E as [_ E]. apply Nat.ltb_lt in E.
    cbn [chapter_names length] in E.
    do 7 (destruct i as [|i]; [eexists; reflexivity|]). lia.
  - exists (clean_title uni_space uni_alnum (title info) ++ str ".pdf").
    apply (_sanitize_filename_framed uni_space uni_alnum
             (format_02d (N.of_nat i + 1)) (title info)).
    + apply format_02d_digits.
    + pose proof (format_02d_length (N.of_nat i + 1)). lia.
Qed.

Lemma files_of_names (pages : list Page) (use_chapter_names : bool)
    (ranges : list ChapterRange) :
  forall i name,
    In name (map fst (files_of pages use_chapter_names i ranges)) ->
    exists k info,
      (i <= k)%nat
      /\ name = chapter_filename uni_space uni_alnum use_chapter_names k info.
Proof.
  induction ranges as [|r ranges IH]; intros i name H; [destruct H|].
  cbn [files_of map fst In] in H. destruct H as [<-|H].
  - exists i, r. split; [lia | reflexivity].
  - destruct (IH (S i) name H) as [k [info [Hk Hn]]].
    exists k, info. split; [lia | exact Hn].
Qed.

(** X5: two chapters at different positions never get the same file name,
    whatever their titles and whether or not the predefined names are
    used; hence the files written by a split of all chapters have
    pairwise different names, and no chapter overwrites another. *)
Theorem chapter_filename_injective :
  (forall (use use' : bool) (i j : nat) (info info' : ChapterRange),
      chapter_filename uni_space uni_alnum use i info
      = chapter_filename uni_space uni_alnum use' j info' ->
      i = j)
  /\ (forall (pages : list Page) (use_chapter_names : bool)
             (ranges : list ChapterRange),
        NoDup (map fst (files_of pages use_chapter_names 0 ranges))).
Proof.
  assert (Hinj : forall (use use' : bool) (i j : nat)
                        (info info' : ChapterRange),
             chapter_filename uni_space uni_alnum use i info
             = chapter_filename uni_space uni_alnum use' j info' ->
             i = j).
  { intros use use' i j info info' H.
    destruct (chapter_filename_prefix use i info) as [x Hx].
    destruct (chapter_filename_prefix use' j info') as [y Hy].
    rewrite Hx, Hy in H.
    apply digits_hyphen_inj in H; try apply format_02d_is_digit.
    apply format_02d_inj in H. lia. }
  split; [exact Hinj|].
  intros pages use ranges. generalize 0%nat.
  induction ranges as [|r ranges IH]; intros i; cbn [files_of map fst].
  - constructor.
  - constructor; [|apply IH].
    intros Hin. apply files_of_names in Hin.
    destruct Hin as [k [info [Hk Hn]]]. apply Hinj in Hn. lia.
Qed.

End Chapters.

(** ** More on sanitized names *)

Section Names.

Variable uni_space : char -> bool.
Variable uni_alnum : char -> bool.

Lemma lstrip_length (s : pystr) :
  (length (lstrip uni_space s) <= length s)%nat.
Proof.
  induction s as [|c s IH]; cbn [lstrip length]; [lia|].
  destruct (isspace uni_space c); cbn [length]; lia.
Qed.

Lemma strip_length (s : pystr) :
  (length (strip uni_space s) <= length s)%nat.
Proof.
  unfold strip, rstrip. rewrite length_rev.
  pose proof (lstrip_length (rev (lstrip uni_space s))) as H1.
  rewrite length_rev in H1.
  pose proof (lstrip_length s). lia.
Qed.

Lemma sub_runs_length (cls : char -> bool) (repl : pystr) (s : pystr) :
  (length repl <= 1)%nat ->
  forall b, (length (sub_runs cls repl b s) <= length s)%nat.
Proof.
  intros Hr. induction s as [|c s IH]; intros b; cbn [sub_runs length];
    [lia|].
  destruct (cls c).
  - rewrite length_app. specialize (IH true).
    destruct b; cbn [length]; lia.
  - cbn [length]. specialize (IH false). lia.
Qed.

(** X6: sanitizing never makes a name longer. *)
Theorem sanitize_filename_length (name : pystr) :
  (length (_sanitize_filename uni_space uni_alnum name) <= length name)%nat.
Proof.
  unfold _sanitize_filename, re_sub_class_plus.
  pose proof (strip_length name) as H1.
  set (a := strip uni_space name) in *.
  pose proof (sub_runs_length is_separator (str "-") a (le_n 1) false) as H2.
  set (b := sub_runs is_separator (str "-") false a) in *.
  pose proof (sub_runs_length
                (fun c => negb (is_allowed uni_alnum c)) (str "") b
                (Nat.le_0_l 1) false) as H3.
  set (c := sub_runs (fun c => negb (is_allowed uni_alnum c)) (str "") false b)
    in *.
  pose proof (sub_runs_length (isspace uni_space) (str " ") c (le_n 1) false)
    as H4.
  pose proof (strip_length
                (sub_runs (isspace uni_space) (str " ") false c)) as H5.
  lia.
Qed.

(** X7: the names that sanitizing leaves unchanged are exactly those made of
    characters of the class [[\w\-\. ]], whose only whitespace is single
    spaces between other characters. *)
Theorem sanitize_filename_fixed_points (name : pystr) :
  _sanitize_filename uni_space uni_alnum name = name
  <-> Forall (fun c => is_allowed uni_alnum c = true) name
      /\ spaced uni_space false name = true
      /\ stripped uni_space name.
Proof.
  split.
  - intros H. rewrite <- H.
    apply (_sanitize_filename_sanitized uni_space uni_alnum name).
  - intros H. apply sanitized_fixed. exact H.
Qed.

End Names.

(** ** The ranges as a partition of the pages *)

(** Page [p] belongs to the range. *)
Definition page_in (r : ChapterRange) (p : Z) : Prop :=
  start_page r <= p <= end_page r.

Lemma ranges_of_tiles (total : Z) (toc : list OutlineEntry) :
  well_formed_outline toc total ->
  tiles_document (ranges_of toc total) total.
Proof.
  induction toc as [|[t s] toc IH]; intros [Hinc Hle].
  - split; constructor.
  - inversion Hle as [|x l Hs Hle']; subst. cbn [snd] in Hs.
    destruct toc as [|[t' s'] toc'].
    + cbn [ranges_of raw_end]. unfold clamp_end.
      destruct (Z.ltb_spec total s); [lia|].
      split; [repeat constructor; cbn [start_page end_page]; lia | exact I].
    + destruct Hinc as [Hlt Hinc']. cbn [snd] in Hlt.
      destruct (IH (conj Hinc' Hle')) as [Hb Hc].
      inversion Hle' as [|y l' Hs' _]; subst. cbn [snd] in Hs'.
      change (ranges_of ((t, s) :: (t', s') :: toc') total)
        with (mkChapterRange t s (clamp_end s (s' - 1))
                :: ranges_of ((t', s') :: toc') total).
      assert (E : clamp_end s (s' - 1) = s' - 1)
        by (unfold clamp_end; destruct (Z.ltb_spec (s' - 1) s); lia).
      rewrite E. split.
      * constructor; [cbn [start_page end_page]; lia | exact Hb].
      * split; [cbn [start_page end_page]; lia | exact Hc].
Qed.

Lemma ranges_of_last (total : Z) (toc : list OutlineEntry) :
  forall (e : OutlineEntry) (d : ChapterRange),
    Forall (fun e => snd e <= total) (e :: toc) ->
    end_page (last (ranges_of (e :: toc) total) d) = total.
Proof.
  induction toc as [|e' toc IH]; intros [t s] d H.
  - inversion H; subst. cbn [snd] in *. cbn [ranges_of raw_end last end_page].
    unfold clamp_end. destruct (Z.ltb_spec total s); lia.
  - inversion H as [|x l _ H']; subst.
    change (ranges_of ((t, s) :: e' :: toc) total)
      with (mkChapterRange t s (clamp_end s (raw_end (e' :: toc) total))
              :: ranges_of (e' :: toc) total).
    rewrite last_cons. destruct e' as [t' s']. apply (IH (t', s')). exact H'.
Qed.

Lemma tiles_after (total : Z) (rest : list ChapterRange) :
  forall first r',
    tiles_document (first :: rest) total ->
    In r' rest ->
    end_page first < start_page r'.
Proof.
  induction rest as [|next rest IH]; intros first r' [Hb Hc] Hin;
    [destruct Hin|].
  inversion Hb as [|x l Hx Hb']; subst. destruct Hc as [Hadj Hc'].
  destruct Hin as [<-|Hin]; [lia|].
  assert (Ht : tiles_document (next :: rest) total) by now split.
  specialize (IH next r' Ht Hin).
  inversion Hb' as [|y l' Hy _]; subst. lia.
Qed.

Lemma tiles_disjoint (total : Z) (l : list ChapterRange) :
  forall i j r r',
    tiles_document l total ->
    (i < j)%nat ->
    nth_error l i = Some r -> nth_error l j = Some r' ->
    end_page r < start_page r'.
Proof.
  induction l as [|first rest IH]; intros i j r r' Ht Hij Hi Hj.
  - destruct i; discriminate.
  - destruct j as [|j]; [lia|]. cbn [nth_error] in Hj.
    destruct i as [|i].
    + cbn in Hi. injection Hi as <-.
      eapply tiles_after; [exact Ht | eapply nth_error_In, Hj].
    + cbn [nth_error] in Hi. apply (IH i j r r'); try assumption; [|lia].
      destruct Ht as [Hb Hc]. inversion Hb; subst.
      split; [assumption|]. destruct rest; [exact I | apply Hc].
Qed.

Lemma tiles_cover (total : Z) (rest : list ChapterRange) :
  forall first p,
    tiles_document (first :: rest) total ->
    start_page first <= p <= end_page (last rest first) ->
    exists r, In r (first :: rest) /\ page_in r p.
Proof.
  induction rest as [|next rest IH]; intros first p [Hb Hc] Hp.
  - exists first. split; [now left | exact Hp].
  - destruct (Z.le_gt_cases p (end_page first)) as [Hle|Hgt].
    + exists first. split; [now left | unfold page_in; lia].
    + destruct Hc as [Hadj Hc']. inversion Hb as [|x l Hx Hb']; subst.
      destruct (IH next p) as [r [Hin Hr]]; [now split | |].
      * rewrite last_cons in Hp. lia.
      * exists r. split; [now right | exact Hr].
Qed.

Lemma tiles_within (total : Z) (rest : list ChapterRange) :
  forall first r,
    tiles_document (first :: rest) total ->
    In r (first :: rest) ->
    start_page first <= start_page r /\ end_page r <= total.
Proof.
  intros first r Ht [<-|Hin].
  - destruct Ht as [Hb _]. inversion Hb; subst. lia.
  - pose proof (tiles_after total rest first r Ht Hin) as H.
    destruct Ht as [Hb _]. rewrite Forall_forall in Hb.
    pose proof (Hb first (or_introl eq_refl)).
    pose proof (Hb r (or_intror Hin)). lia.
Qed.

(** X8: for an outline whose start pages are strictly increasing and not
    beyond the last page, the ranges partition the pages from the first
    start page to the last page of the document: every such page belongs
    to exactly one range, and the ranges hold no other page. *)
Theorem compute_ranges_partition (t : pystr) (s : Z)
    (rest : list OutlineEntry) (total_pages : Z) :
  well_formed_outline ((t, s) :: rest) total_pages ->
  exists ranges,
    compute_ranges ((t, s) :: rest) total_pages = Some ranges
    /\ (forall p,
          s <= p <= total_pages ->
          exists i r,
            nth_error ranges i = Some r /\ page_in r p
            /\ forall j r',
                 nth_error ranges j = Some r' -> page_in r' p -> j = i)
    /\ (forall r p, In r ranges -> page_in r p -> s <= p <= total_pages).
Proof.
  intros Hwf. exists (ranges_of ((t, s) :: rest) total_pages).
  split; [apply compute_ranges_eq|].
  pose proof (ranges_of_tiles total_pages _ Hwf) as Ht.
  pose proof (ranges_of_last total_pages rest (t, s)
                (mkChapterRange t s
                   (clamp_end s (raw_end rest total_pages)))
                (proj2 Hwf)) as Hlast.
  change (ranges_of ((t, s) :: rest) total_pages)
    with (mkChapterRange t s (clamp_end s (raw_end rest total_pages))
            :: ranges_of rest total_pages) in *.
  rewrite last_cons in Hlast.
  set (first := mkChapterRange t s (clamp_end s (raw_end rest total_pages)))
    in *.
  split.
  - intros p Hp.
    destruct (tiles_cover total_pages _ first p Ht) as [r [Hin Hr]];
      [rewrite Hlast; cbn [first start_page]; lia|].
    destruct (In_nth_error _ _ Hin) as [i Hi].
    exists i, r. split; [exact Hi|]. split; [exact Hr|].
    intros j r' Hj Hr'.
    destruct (Nat.lt_trichotomy j i) as [Hlt|[Heq|Hgt]]; [|exact Heq|].
    + pose proof (tiles_disjoint total_pages _ j i r' r Ht Hlt Hj Hi).
      unfold page_in in *. lia.
    + pose proof (tiles_disjoint total_pages _ i j r r' Ht Hgt Hi Hj).
      unfold page_in in *. lia.
  - intros r p Hin Hr.
    pose proof (tiles_within total_pages _ first r Ht Hin) as [H1 H2].
    cbn [first start_page] in H1. unfold page_in in Hr. lia.
Qed.

(** ** The outline parser *)

Section Outline.

Local Open Scope N_scope.

Variable uni_space : char -> bool.

(** The value of the decimal digits above 127, which [\d] matches and
    [int] reads like the ASCII digits: a parameter, like the two tables
    of the character classes. *)
Variable uni_decimal : char -> option N.

(** The class [[a-zA-Z]]. *)
Definition is_letter (c : char) : bool :=
  ((65 <=? c) && (c <=? 90)) || ((97 <=? c) && (c <=? 122)).

Definition decimal_value (c : char) : option N :=
  if c <? 128
  then (if (48 <=? c) && (c <=? 57) then Some (c - 48) else None)
  else uni_decimal c.

(** The class [\d]. *)
Definition is_decimal (c : char) : bool :=
  match decimal_value c with
  | Some _ => true
  | None => false
  end.

(** The class [[^}]]. *)
Definition not_closing (c : char) : bool := negb (c =? 125).

(** [sys.get_int_max_str_digits()]: the most digits that the running
    interpreter converts between [str] and [int].  It is 4300 unless the
    interpreter was started otherwise; 0 stands for no limit, which is
    also what the interpreters older than the limit have; no other value
    below 640 can be set. *)
Variable max_str_digits : nat.

Definition within_limit (digits : pystr) : bool :=
  (max_str_digits =? 0)%nat || (length digits <=? max_str_digits)%nat.

(** The number that a string of decimal digits writes. *)
Definition int_value (digits : pystr) : Z :=
  Z.of_N
    (fold_left
       (fun acc c =>
          acc * 10 + match decimal_value c with
                     | Some v => v
                     | None => 0
                     end)
       digits 0).

(** [int(digits)] for a string matched by [\d+].  [None] is the
    ValueError that [int] raises for a string of more digits than the
    limit; every digit counts, leading zeros too. *)
Definition py_int (digits : pystr) : option Z :=
  if within_limit digits then Some (int_value digits) else None.

(** A literal of a pattern at the head of [s]: what follows it. *)
Fixpoint match_literal (lit s : pystr) : option pystr :=
  match lit with
  | [] => Some s
  | a :: lit' =>
      match s with
      | [] => None
      | c :: s' => if a =? c then match_literal lit' s' else None
      end
  end.

(** A greedy [[...]*] at the head of [s]: what it matches, and what
    follows. *)
Fixpoint span (cls : char -> bool) (s : pystr) : pystr * pystr :=
  match s with
  | [] => ([], [])
  | c :: s' =>
      if cls c
      then let r := span cls s' in (c :: fst r, snd r)
      else ([], s)
  end.

(** [\s*] at the head of [s]: what follows. *)
Definition skip_space (s : pystr) : pystr := snd (span (isspace uni_space) s).

(** The scan of [re.finditer] and [re.sub] for a pattern that matches no
    empty string.  [matcher] tells whether the pattern matches at the
    head of its argument, and gives the result of the match and the rest
    of the input.  The scan goes from left to right: where the pattern
    matches, the match is kept and the search goes on after it; where it
    does not, the character is passed over.  [skip] counts the
    characters of the last match that are still to be passed. *)
Fixpoint scan {A : Type} (matcher : pystr -> option (A * pystr)) (skip : nat)
    (s : pystr) : list (char + A) :=
  match s with
  | [] => []
  | c :: s' =>
      match skip with
      | S k => scan matcher k s'
      | O =>
          match matcher s with
          | Some (a, rest) =>
              inr a :: scan matcher (length s' - length rest) s'
          | None => inl c :: scan matcher 0 s'
          end
      end
  end.

(** The matches of [pattern.finditer(s)]. *)
Definition finditer {A : Type} (matcher : pystr -> option (A * pystr))
    (s : pystr) : list A :=
  flat_map (fun x => match x with inl _ => [] | inr a => [a] end)
    (scan matcher 0 s).

(** [re.sub(pattern, repl, s)]: [repl] gives the replacement of a match. *)
Definition re_sub {A : Type} (matcher : pystr -> option (A * pystr))
    (repl : A -> pystr) (s : pystr) : pystr :=
  flat_map (fun x => match x with inl c => [c] | inr a => repl a end)
    (scan matcher 0 s).

(** [\\[a-zA-Z]+] at the head of [s]: what follows.  The letters are
    matched greedily, and giving one back never helps what comes next in
    the two patterns that use this. *)
Definition match_command (s : pystr) : option pystr :=
  match s with
  | 92 :: r =>
      match span is_letter r with
      | ([], _) => None
      | (_ :: _, rest) => Some rest
      end
  | _ => None
  end.

(** A command, whitespace if any, and an argument in braces that holds
    no closing brace (the group): the group and what follows. *)
Definition match_braced_command (s : pystr) : option (pystr * pystr) :=
  match match_command s with
  | None => None
  | Some r =>
      match match_literal (str "{") (skip_space r) with
      | None => None
      | Some r =>
          match match_literal (str "}") (snd (span not_closing r)) with
          | None => None
          | Some rest => Some (fst (span not_closing r), rest)
          end
      end
  end.

Definition _strip_latex_commands (s : pystr) : pystr :=
  (* Remove simple LaTeX commands while keeping their contents *)
  (* the template r"\\1" is an escaped backslash followed by 1 *)
  let s := re_sub match_braced_command (fun _ => [92; 49]) s in
  (* Remove remaining commands like \emph, \LaTeX *)
  let s := re_sub (fun s => option_map (fun r => (tt, r)) (match_command s))
             (fun _ => str "") s in
  (* Collapse spaces *)
  let s := strip uni_space (re_sub_class_plus (isspace uni_space) (str " ") s) in
  s.

(** The optional group of the pattern of [parse_toc]: [\numberline],
    whitespace if any, and braces around characters other than the
    closing brace.  What follows it. *)
Definition match_numberline (s : pystr) : option pystr :=
  match match_literal (str "\numberline") s with
  | None => None
  | Some r =>
      match match_literal (str "{") (skip_space r) with
      | None => None
      | Some r => match_literal (str "}") (snd (span not_closing r))
      end
  end.

(** The end of the pattern of [parse_toc]: the title group (characters
    other than the closing brace), the two braces, the page group (one
    decimal digit or more) and a closing brace.  The two groups and what
    follows. *)
Definition match_title_page (s : pystr) : option ((pystr * pystr) * pystr) :=
  match match_literal (str "}{") (snd (span not_closing s)) with
  | None => None
  | Some r =>
      match fst (span is_decimal r) with
      | [] => None
      | _ :: _ =>
          match match_literal (str "}") (snd (span is_decimal r)) with
          | None => None
          | Some rest =>
              Some ((fst (span not_closing s), fst (span is_decimal r)), rest)
          end
      end
  end.

(** The pattern of [parse_toc] at the head of [s].  The optional group is
    tried first; when the rest of the pattern fails after it, the match
    is tried again without the group.  This is the only place where the
    engine has a choice that matters: each greedy repetition of the
    pattern is followed by a character outside its class (whitespace by
    a brace or a backslash, the characters other than the closing brace
    by that brace, the digits by a brace), so giving back a character
    never lets the rest of the pattern match; and with less whitespace
    before the title the group cannot match, while the title group ends
    at the same closing brace. *)
Definition match_chapter (s : pystr) : option ((pystr * pystr) * pystr) :=
  match match_literal (str "\contentsline") s with
  | None => None
  | Some r =>
      match match_literal (str "{chapter}{") (skip_space r) with
      | None => None
      | Some r =>
          let r := skip_space r in
          match match_numberline r with
          | Some r' =>
              match match_title_page r' with
              | Some m => Some m
              | None => match_title_page r
              end
          | None => match_title_page r
          end
      end
  end.

(** The loop of [parse_toc] over the matches, with the two groups of each
    match.  [chapters] is the list built so far; [None] is the ValueError
    of [int], which ends the loop and the call. *)
Fixpoint parse_toc_loop (matches : list (pystr * pystr))
    (chapters : list OutlineEntry) : option (list OutlineEntry) :=
  match matches with
  | [] => Some chapters
  | m :: matches' =>
      let raw_title := strip uni_space (fst m) in
      let title := _strip_latex_commands raw_title in
      match py_int (snd m) with
      | None => None
      | Some start_page =>
          parse_toc_loop matches' (chapters ++ [(title, start_page)])
      end
  end.

(** [parse_toc], on the text of the file. *)
Definition parse_toc (content : pystr) : option (list OutlineEntry) :=
  parse_toc_loop (finditer match_chapter content) [].

(** The entry that a match gives when [int] accepts its page. *)
Definition chapter_entry (m : pystr * pystr) : OutlineEntry :=
  (_strip_latex_commands (strip uni_space (fst m)), int_value (snd m)).

Lemma parse_toc_loop_spec (matches : list (pystr * pystr)) :
  forall chapters,
    parse_toc_loop matches chapters
    = if forallb (fun m => within_limit (snd m)) matches
      then Some (chapters ++ map chapter_entry matches)
      else None.
Proof.
  induction matches as [|m matches IH]; intros chapters;
    cbn [parse_toc_loop forallb map].
  - now rewrite app_nil_r.
  - cbv zeta. unfold py_int. destruct (within_limit (snd m)); [|reflexivity].
    cbn [andb]. rewrite IH, <- app_assoc. reflexivity.
Qed.

Lemma parse_toc_eq (content : pystr) :
  parse_toc content
  = if forallb (fun m => within_limit (snd m)) (finditer match_chapter content)
    then Some (map chapter_entry (finditer match_chapter content))
    else None.
Proof. unfold parse_toc. now rewrite parse_toc_loop_spec. Qed.

(** *** The scan, match after match *)

Lemma match_literal_app (lit r : pystr) : match_literal lit (lit ++ r) = Some r.
Proof.
  induction lit as [|a lit IH]; [reflexivity|].
  cbn [app match_literal]. now rewrite N.eqb_refl.
Qed.

Lemma match_literal_inv (lit : pystr) :
  forall s r, match_literal lit s = Some r -> s = lit ++ r.
Proof.
  induction lit as [|a lit IH]; intros s r H; cbn [match_literal] in H.
  - now injection H as ->.
  - destruct s as [|c s]; [discriminate|].
    destruct (N.eqb_spec a c) as [->|_]; [|discriminate].
    cbn [app]. f_equal. now apply IH.
Qed.

Lemma span_app (cls : char -> bool) (s : pystr) :
  s = fst (span cls s) ++ snd (span cls s).
Proof.
  induction s as [|c s IH]; [reflexivity|]. cbn [span].
  destruct (cls c); cbn [fst snd app]; [now f_equal | reflexivity].
Qed.

Lemma span_all (cls : char -> bool) (s : pystr) :
  Forall (fun c => cls c = true) (fst (span cls s)).
Proof.
  induction s as [|c s IH]; [constructor|]. cbn [span].
  destruct (cls c) eqn:E; cbn [fst]; [now constructor | constructor].
Qed.

(** The string begins with no character of the class. *)
Definition stops (cls : char -> bool) (s : pystr) : Prop :=
  match s with
  | [] => True
  | c :: _ => cls c = false
  end.

Lemma span_stops (cls : char -> bool) (s : pystr) :
  stops cls (snd (span cls s)).
Proof.
  induction s as [|c s IH]; [exact I|]. cbn [span].
  destruct (cls c) eqn:E; cbn [snd]; [exact IH | exact E].
Qed.

Lemma span_exact (cls : char -> bool) (m r : pystr) :
  Forall (fun c => cls c = true) m -> stops cls r ->
  span cls (m ++ r) = (m, r).
Proof.
  intros Hm Hr. induction Hm as [|c m Hc Hm IH]; cbn [app].
  - destruct r as [|c r]; [reflexivity|]. cbn [span stops] in *.
    now rewrite Hr.
  - cbn [span]. now rewrite Hc, IH.
Qed.

(** A matcher that consumes at least one character of its input. *)
Definition consumes {A : Type} (matcher : pystr -> option (A * pystr))
    : Prop :=
  forall s a rest,
    matcher s = Some (a, rest) ->
    exists c pre, s = c :: pre ++ rest.

Lemma scan_skip {A : Type} (matcher : pystr -> option (A * pystr))
    (pre rest : pystr) :
  scan matcher (length pre) (pre ++ rest) = scan matcher 0 rest.
Proof.
  induction pre as [|c pre IH]; [reflexivity | exact IH].
Qed.

Lemma scan_nomatch {A : Type} (matcher : pystr -> option (A * pystr))
    (c : char) (s : pystr) :
  matcher (c :: s) = None ->
  scan matcher 0 (c :: s) = inl c :: scan matcher 0 s.
Proof. intros H. cbn [scan]. now rewrite H. Qed.

Lemma scan_match {A : Type} (matcher : pystr -> option (A * pystr))
    (s : pystr) (a : A) (rest : pystr) :
  consumes matcher ->
  matcher s = Some (a, rest) ->
  scan matcher 0 s = inr a :: scan matcher 0 rest.
Proof.
  intros Hc H. destruct (Hc s a rest H) as [c [pre ->]].
  cbn [scan]. rewrite H. f_equal.
  rewrite length_app.
  replace (length pre + length rest - length rest)%nat with (length pre)
    by lia.
  apply scan_skip.
Qed.

Lemma finditer_nomatch {A : Type} (matcher : pystr -> option (A * pystr))
    (c : char) (s : pystr) :
  matcher (c :: s) = None ->
  finditer matcher (c :: s) = finditer matcher s.
Proof.
  intros H. unfold finditer. now rewrite scan_nomatch.
Qed.

Lemma finditer_match {A : Type} (matcher : pystr -> option (A * pystr))
    (s : pystr) (a : A) (rest : pystr) :
  consumes matcher ->
  matcher s = Some (a, rest) ->
  finditer matcher s = a :: finditer matcher rest.
Proof.
  intros Hc H. unfold finditer. now rewrite (scan_match _ _ _ _ Hc H).
Qed.

Lemma re_sub_nomatch {A : Type} (matcher : pystr -> option (A * pystr))
    (repl : A -> pystr) (c : char) (s : pystr) :
  matcher (c :: s) = None ->
  re_sub matcher repl (c :: s) = c :: re_sub matcher repl s.
Proof.
  intros H. unfold re_sub. now rewrite scan_nomatch.
Qed.

Lemma re_sub_match {A : Type} (matcher : pystr -> option (A * pystr))
    (repl : A -> pystr) (s : pystr) (a : A) (rest : pystr) :
  consumes matcher ->
  matcher s = Some (a, rest) ->
  re_sub matcher repl s = repl a ++ re_sub matcher repl rest.
Proof.
  intros Hc H. unfold re_sub. now rewrite (scan_match _ _ _ _ Hc H).
Qed.

(** Induction on the scan: the empty input, a character passed over, a
    match followed by the scan of the rest. *)
Lemma scan_ind {A : Type} (matcher : pystr -> option (A * pystr))
    (P : pystr -> list (char + A) -> Prop) :
  consumes matcher ->
  P [] [] ->
  (forall c s,
      matcher (c :: s) = None -> P s (scan matcher 0 s) ->
      P (c :: s) (inl c :: scan matcher 0 s)) ->
  (forall c pre rest a,
      matcher (c :: pre ++ rest) = Some (a, rest) ->
      P rest (scan matcher 0 rest) ->
      P (c :: pre ++ rest) (inr a :: scan matcher 0 rest)) ->
  forall s, P s (scan matcher 0 s).
Proof.
  intros Hc Hnil Hno Hyes s.
  remember (length s) as n eqn:Hn. revert s Hn.
  induction n as [n IH] using lt_wf_ind. intros s Hn.
  destruct s as [|c s]; [exact Hnil|].
  destruct (matcher (c :: s)) as [[a rest]|] eqn:E.
  - rewrite (scan_match _ _ _ _ Hc E).
    destruct (Hc _ _ _ E) as [c' [pre Hs]].
    rewrite Hs in E |- *. apply Hyes; [exact E|].
    apply (IH (length rest)); [|reflexivity].
    rewrite Hn, Hs. cbn [length]. rewrite length_app. lia.
  - rewrite (scan_nomatch _ _ _ E). apply Hno; [exact E|].
    apply (IH (length s)); [|reflexivity]. rewrite Hn. cbn [length]. lia.
Qed.

(** A matcher whose matches begin with a backslash finds nothing in a
    text without backslash. *)
Definition at_backslash {A : Type} (matcher : pystr -> option (A * pystr))
    : Prop :=
  forall s, stops (fun c => c =? 92) s -> matcher s = None.

Lemma scan_plain {A : Type} (matcher : pystr -> option (A * pystr))
    (pre rest : pystr) :
  at_backslash matcher ->
  Forall (fun c => c <> 92) pre ->
  scan matcher 0 (pre ++ rest) = map inl pre ++ scan matcher 0 rest.
Proof.
  intros Hm Hpre. induction Hpre as [|c pre Hc Hpre IH]; [reflexivity|].
  cbn [app map]. rewrite scan_nomatch; [now rewrite IH|].
  apply Hm. cbn [stops]. now apply N.eqb_neq.
Qed.

Lemma finditer_plain {A : Type} (matcher : pystr -> option (A * pystr))
    (pre rest : pystr) :
  at_backslash matcher ->
  Forall (fun c => c <> 92) pre ->
  finditer matcher (pre ++ rest) = finditer matcher rest.
Proof.
  intros Hm Hpre. unfold finditer. rewrite scan_plain by assumption.
  rewrite flat_map_app.
  replace (flat_map _ (map inl pre)) with (@nil A); [reflexivity|].
  clear. induction pre as [|c pre IH]; [reflexivity | exact IH].
Qed.

Lemma re_sub_plain {A : Type} (matcher : pystr -> option (A * pystr))
    (repl : A -> pystr) (pre rest : pystr) :
  at_backslash matcher ->
  Forall (fun c => c <> 92) pre ->
  re_sub matcher repl (pre ++ rest) = pre ++ re_sub matcher repl rest.
Proof.
  intros Hm Hpre. unfold re_sub. rewrite scan_plain by assumption.
  rewrite flat_map_app. f_equal.
  clear. induction pre as [|c pre IH]; [reflexivity|].
  cbn [map flat_map app]. now rewrite IH.
Qed.

(** *** The matchers *)

Lemma match_command_inv (s r : pystr) :
  match_command s = Some r ->
  exists letters,
    s = 92 :: letters ++ r
    /\ letters <> []
    /\ Forall (fun c => is_letter c = true) letters
    /\ stops is_letter r.
Proof.
  unfold match_command. destruct s as [|c s]; [discriminate|].
  destruct (N.eqb_spec c 92) as [->|Hc].
  - pose proof (span_app is_letter s) as Happ.
    pose proof (span_all is_letter s) as Hall.
    pose proof (span_stops is_letter s) as Hstop.
    destruct (span is_letter s) as [[|l letters] rest]; [discriminate|].
    intros H. injection H as <-. cbn [fst snd] in *.
    exists (l :: letters). rewrite Happ. repeat split; auto. discriminate.
  - intros H. exfalso. apply Hc.
    destruct c as [|p]; [discriminate|].
    do 7 (destruct p as [p|p|]; try discriminate). reflexivity.
Qed.

Lemma match_command_app (letters r : pystr) :
  letters <> [] ->
  Forall (fun c => is_letter c = true) letters ->
  stops is_letter r ->
  match_command (92 :: letters ++ r) = Some r.
Proof.
  intros Hne Hall Hr. unfold match_command.
  rewrite (span_exact is_letter letters r Hall Hr).
  destruct letters; [contradiction | reflexivity].
Qed.

Lemma match_command_backslash (s : pystr) :
  stops (fun c => c =? 92) s -> match_command s = None.
Proof.
  destruct s as [|c s]; [reflexivity|]. cbn [stops]. intros H.
  destruct (match_command (c :: s)) as [r|] eqn:E; [|reflexivity].
  apply match_command_inv in E. destruct E as [l [E _]].
  injection E as -> _. discriminate.
Qed.

(** The matcher of the second substitution of [_strip_latex_commands]. *)
Definition command_matcher (s : pystr) : option (unit * pystr) :=
  option_map (fun r => (tt, r)) (match_command s).

Lemma command_matcher_consumes : consumes command_matcher.
Proof.
  intros s [] rest H. unfold command_matcher in H.
  destruct (match_command s) as [r|] eqn:E; [|discriminate].
  injection H as <-. apply match_command_inv in E.
  destruct E as [letters [-> _]]. now exists 92, letters.
Qed.

Lemma command_matcher_backslash : at_backslash command_matcher.
Proof.
  intros s H. unfold command_matcher.
  now rewrite match_command_backslash.
Qed.

Lemma match_braced_command_inv (s arg rest : pystr) :
  match_braced_command s = Some (arg, rest) ->
  exists letters ws,
    s = 92 :: letters ++ ws ++ 123 :: arg ++ 125 :: rest
    /\ Forall (fun c => not_closing c = true) arg.
Proof.
  unfold match_braced_command.
  destruct (match_command s) as [r|] eqn:E; [|discriminate].
  apply match_command_inv in E. destruct E as [letters [-> _]].
  pose proof (span_app (isspace uni_space) r) as Hws.
  unfold skip_space.
  destruct (match_literal (str "{") (snd (span (isspace uni_space) r)))
    as [r1|] eqn:E1; [|discriminate].
  apply match_literal_inv in E1.
  pose proof (span_app not_closing r1) as Harg.
  pose proof (span_all not_closing r1) as Hall.
  destruct (match_literal (str "}") (snd (span not_closing r1)))
    as [r2|] eqn:E2; [|discriminate].
  apply match_literal_inv in E2.
  intros H. injection H as <- <-.
  exists letters, (fst (span (isspace uni_space) r)).
  split; [|exact Hall].
  rewrite Hws at 1. rewrite E1. cbn [str map list_ascii_of_string app].
  rewrite Harg at 1. rewrite E2. reflexivity.
Qed.

Lemma match_braced_command_consumes : consumes match_braced_command.
Proof.
  intros s arg rest H. apply match_braced_command_inv in H.
  destruct H as [letters [ws [-> _]]].
  exists 92, (letters ++ ws ++ 123 :: arg ++ [125]).
  cbn [app]. f_equal. rewrite <- !app_assoc. cbn [app].
  now rewrite <- app_assoc.
Qed.

Lemma match_braced_command_backslash : at_backslash match_braced_command.
Proof.
  intros s H. unfold match_braced_command.
  now rewrite match_command_backslash.
Qed.

Lemma match_title_page_inv (s title digits rest : pystr) :
  match_title_page s = Some ((title, digits), rest) ->
  s = title ++ str "}{" ++ digits ++ str "}" ++ rest
  /\ Forall (fun c => not_closing c = true) title
  /\ Forall (fun c => is_decimal c = true) digits.
Proof.
  unfold match_title_page.
  pose proof (span_app not_closing s) as Ht.
  pose proof (span_all not_closing s) as Hta.
  destruct (match_literal (str "}{") (snd (span not_closing s)))
    as [r|] eqn:E1; [|discriminate].
  apply match_literal_inv in E1.
  pose proof (span_app is_decimal r) as Hd.
  pose proof (span_all is_decimal r) as Hda.
  destruct (fst (span is_decimal r)) as [|d ds] eqn:Ed; [discriminate|].
  destruct (match_literal (str "}") (snd (span is_decimal r)))
    as [r2|] eqn:E2; [|discriminate].
  apply match_literal_inv in E2.
  intros H. injection H as <- <- <-.
  split; [|split; assumption].
  rewrite Ht at 1. rewrite E1. rewrite Hd at 1. rewrite E2.
  reflexivity.
Qed.

(** [rest] is what is left of [s] after some of its characters. *)
Definition ends_with (s rest : pystr) : Prop := exists pre, s = pre ++ rest.

Lemma ends_with_refl (s : pystr) : ends_with s s.
Proof. now exists []. Qed.

Lemma ends_with_app (a b : pystr) : ends_with (a ++ b) b.
Proof. now exists a. Qed.

Lemma ends_with_trans (s t u : pystr) :
  ends_with s t -> ends_with t u -> ends_with s u.
Proof.
  intros [p ->] [q ->]. exists (p ++ q). now rewrite app_assoc.
Qed.

Lemma match_literal_ends (lit s r : pystr) :
  match_literal lit s = Some r -> ends_with s r.
Proof. intros H. apply match_literal_inv in H. subst s. apply ends_with_app. Qed.

Lemma span_ends (cls : char -> bool) (s : pystr) :
  ends_with s (snd (span cls s)).
Proof. exists (fst (span cls s)). apply span_app. Qed.

Lemma match_title_page_ends (s title digits rest : pystr) :
  match_title_page s = Some ((title, digits), rest) -> ends_with s rest.
Proof.
  intros H. apply match_title_page_inv in H. destruct H as [-> _].
  exists (title ++ str "}{" ++ digits ++ str "}").
  now rewrite <- !app_assoc.
Qed.

Lemma match_numberline_ends (s r : pystr) :
  match_numberline s = Some r -> ends_with s r.
Proof.
  unfold match_numberline, skip_space.
  destruct (match_literal (str "\numberline") s) as [n1|] eqn:N1;
    [|discriminate].
  destruct (match_literal (str "{") (snd (span (isspace uni_space) n1)))
    as [n2|] eqn:N2; [|discriminate].
  intros N3.
  apply match_literal_ends in N1, N2, N3.
  eapply ends_with_trans; [exact N1|].
  eapply ends_with_trans; [apply span_ends|].
  eapply ends_with_trans; [exact N2|].
  eapply ends_with_trans; [apply span_ends | exact N3].
Qed.

Lemma match_chapter_inv (s title digits rest : pystr) :
  match_chapter s = Some ((title, digits), rest) ->
  (exists pre, s = 92 :: pre ++ rest)
  /\ Forall (fun c => not_closing c = true) title
  /\ Forall (fun c => is_decimal c = true) digits.
Proof.
  unfold match_chapter, skip_space. cbv zeta.
  destruct (match_literal (str "\contentsline") s) as [r|] eqn:E1;
    [|discriminate].
  destruct (match_literal (str "{chapter}{")
              (snd (span (isspace uni_space) r))) as [r1|] eqn:E2;
    [|discriminate].
  set (r2 := snd (span (isspace uni_space) r1)).
  intros H.
  assert (Hcase : exists x, match_title_page x = Some ((title, digits), rest)
                            /\ ends_with r2 x).
  { destruct (match_numberline r2) as [r3|] eqn:N.
    - destruct (match_title_page r3) as [m|] eqn:M.
      + injection H as ->. exists r3. split; [exact M|].
        now apply match_numberline_ends.
      + exists r2. split; [exact H | apply ends_with_refl].
    - exists r2. split; [exact H | apply ends_with_refl]. }
  destruct Hcase as [x [Hx Hr2]].
  pose proof (match_title_page_ends _ _ _ _ Hx) as Hrest.
  apply match_title_page_inv in Hx. destruct Hx as [_ [Ht Hd]].
  split; [|split; assumption].
  assert (Hr : ends_with r rest).
  { eapply ends_with_trans; [apply span_ends|].
    eapply ends_with_trans; [exact (match_literal_ends _ _ _ E2)|].
    eapply ends_with_trans; [apply span_ends|].
    eapply ends_with_trans; [exact Hr2 | exact Hrest]. }
  destruct Hr as [pre Hpre].
  apply match_literal_inv in E1. rewrite E1, Hpre.
  exists (str "contentsline" ++ pre).
  now rewrite <- app_assoc.
Qed.

Lemma match_chapter_consumes : consumes match_chapter.
Proof.
  intros s [title digits] rest H. apply match_chapter_inv in H.
  destruct H as [[pre ->] _]. now exists 92, pre.
Qed.

Lemma match_chapter_backslash : at_backslash match_chapter.
Proof.
  intros s H. unfold match_chapter.
  destruct s as [|c s]; [reflexivity|]. cbn [stops] in H.
  cbn [str map list_ascii_of_string match_literal].
  change (N_of_ascii "\") with 92. rewrite N.eqb_sym, H. reflexivity.
Qed.

Lemma scan_found {A : Type} (matcher : pystr -> option (A * pystr)) (a : A) :
  forall s k,
    In (inr a) (scan matcher k s) ->
    exists s' rest, matcher s' = Some (a, rest).
Proof.
  induction s as [|c s IH]; intros k H; [destruct H|].
  cbn [scan] in H. destruct k as [|k]; [|now apply (IH k)].
  destruct (matcher (c :: s)) as [[a' rest]|] eqn:E.
  - destruct H as [H|H]; [injection H as ->; eauto | now apply (IH _ H)].
  - destruct H as [H|H]; [discriminate | now apply (IH _ H)].
Qed.

Lemma finditer_found {A : Type} (matcher : pystr -> option (A * pystr))
    (a : A) (s : pystr) :
  In a (finditer matcher s) ->
  exists s' rest, matcher s' = Some (a, rest).
Proof.
  unfold finditer. rewrite in_flat_map. intros [[c|a'] [Hin Ha]].
  - destruct Ha.
  - destruct Ha as [->|[]]. now apply scan_found in Hin.
Qed.

(** *** What the parser returns *)

Definition starts_with_letter (s : pystr) : bool :=
  match s with
  | [] => false
  | c :: _ => is_letter c
  end.

(** No backslash of [s] is followed by a letter: [s] holds no command. *)
Fixpoint no_command (s : pystr) : bool :=
  match s with
  | [] => true
  | c :: s' =>
      (negb (c =? 92) || negb (starts_with_letter s')) && no_command s'
  end.

Lemma scan_chars {A : Type} (matcher : pystr -> option (A * pystr))
    (c : char) :
  forall s k, In (inl c) (scan matcher k s) -> In c s.
Proof.
  induction s as [|d s IH]; intros k H; [destruct H|].
  cbn [scan] in H. destruct k as [|k]; [|right; now apply (IH k)].
  destruct (matcher (d :: s)) as [[a rest]|].
  - destruct H as [H|H]; [discriminate | right; now apply (IH _ H)].
  - destruct H as [H|H]; [injection H as ->; now left
                         | right; now apply (IH _ H)].
Qed.

Lemma re_sub_Forall {A : Type} (Q : char -> Prop)
    (matcher : pystr -> option (A * pystr)) (repl : A -> pystr) (s : pystr) :
  (forall a, Forall Q (repl a)) -> Forall Q s ->
  Forall Q (re_sub matcher repl s).
Proof.
  intros Hrepl Hs. rewrite Forall_forall in *. intros c Hc.
  unfold re_sub in Hc. rewrite in_flat_map in Hc.
  destruct Hc as [[d|a] [Hin Hc]].
  - destruct Hc as [<-|[]]. apply Hs. now apply scan_chars in Hin.
  - specialize (Hrepl a). rewrite Forall_forall in Hrepl. now apply Hrepl.
Qed.

Lemma letter_not_space (c : char) :
  is_letter c = true -> isspace uni_space c = false.
Proof.
  intros H.
  assert (Hc : c < N.of_nat 128).
  { revert H. unfold is_letter.
    rewrite !orb_true_iff, !andb_true_iff, !N.leb_le.
    unfold char in c. lia. }
  apply below_enum in Hc.
  assert (Hall : forallb
            (fun c => negb (is_letter c) || negb (isspace uni_space c))
            (map N.of_nat (seq 0 128)) = true)
    by (vm_compute; reflexivity).
  rewrite forallb_forall in Hall. specialize (Hall c Hc).
  rewrite H in Hall. cbn [negb orb] in Hall. now apply negb_true_iff.
Qed.

Lemma match_command_none (s : pystr) :
  match_command (92 :: s) = None -> starts_with_letter s = false.
Proof.
  unfold match_command. destruct s as [|c s]; [reflexivity|].
  cbn [span starts_with_letter]. destruct (is_letter c); [|reflexivity].
  cbn [fst snd]. discriminate.
Qed.

Lemma stops_starts (s : pystr) :
  stops is_letter s -> starts_with_letter s = false.
Proof. destruct s; [reflexivity | exact (fun H => H)]. Qed.

Lemma remove_commands_no_command (s : pystr) :
  no_command (re_sub command_matcher (fun _ => str "") s) = true
  /\ (starts_with_letter s = false ->
      starts_with_letter (re_sub command_matcher (fun _ => str "") s)
      = false).
Proof.
  unfold re_sub.
  apply (scan_ind command_matcher
           (fun s toks =>
              let out := flat_map
                           (fun x : char + unit =>
                              match x with
                              | inl c => [c]
                              | inr a => str ""
                              end) toks in
              no_command out = true
              /\ (starts_with_letter s = false ->
                  starts_with_letter out = false))).
  - apply command_matcher_consumes.
  - now split.
  - intros c r Hno [IH1 IH2]. cbv zeta in *. cbn [flat_map app].
    split; [|intros H; exact H].
    cbn [no_command]. rewrite IH1, andb_true_r.
    destruct (N.eqb_spec c 92) as [->|_]; [|reflexivity].
    cbn [negb orb]. rewrite IH2; [reflexivity|].
    apply match_command_none. revert Hno. unfold command_matcher.
    match goal with
    | |- option_map _ ?m = None -> _ => destruct m eqn:E
    end; [discriminate | intros _; exact E].
  - intros c pre rest [] Hyes [IH1 IH2]. cbv zeta in *.
    cbn [flat_map str map list_ascii_of_string app].
    split; [exact IH1|]. intros _. apply IH2.
    unfold command_matcher in Hyes.
    destruct (match_command (c :: pre ++ rest)) as [r|] eqn:E;
      [|discriminate].
    injection Hyes as ->. apply match_command_inv in E.
    destruct E as [letters [_ [_ [_ Hstop]]]]. now apply stops_starts.
Qed.

Lemma collapse_starts (s : pystr) :
  starts_with_letter s = false ->
  starts_with_letter (sub_runs (isspace uni_space) (str " ") false s) = false.
Proof.
  destruct s as [|c s]; [reflexivity|]. cbn [starts_with_letter sub_runs].
  intros H. destruct (isspace uni_space c); [reflexivity | exact H].
Qed.

Lemma collapse_no_command (s : pystr) :
  forall b,
    no_command s = true ->
    no_command (sub_runs (isspace uni_space) (str " ") b s) = true.
Proof.
  induction s as [|c s IH]; intros b H; [reflexivity|].
  cbn [no_command] in H. apply andb_true_iff in H. destruct H as [Hc Hs].
  cbn [sub_runs]. destruct (isspace uni_space c) eqn:E.
  - destruct b; cbn [str map list_ascii_of_string app]; [now apply IH|].
    cbn [no_command]. change (N_of_ascii " " =? 92) with false.
    cbn [negb orb andb]. now apply IH.
  - cbn [no_command]. rewrite (IH false Hs), andb_true_r.
    destruct (N.eqb_spec c 92) as [->|_]; [|reflexivity].
    cbn [negb orb] in *. apply negb_true_iff in Hc.
    now rewrite (collapse_starts s Hc).
Qed.

Lemma no_command_suffix (w s : pystr) :
  no_command (w ++ s) = true -> no_command s = true.
Proof.
  induction w as [|c w IH]; [trivial|]. cbn [app no_command].
  intros H. apply andb_true_iff in H. now apply IH.
Qed.

Lemma no_command_prefix (p q : pystr) :
  no_command (p ++ q) = true -> no_command p = true.
Proof.
  induction p as [|c p IH]; [reflexivity|]. cbn [app no_command].
  intros H. apply andb_true_iff in H. destruct H as [Hc Hp].
  rewrite (IH Hp), andb_true_r.
  destruct p as [|d p]; [now rewrite orb_true_r | exact Hc].
Qed.

Lemma strip_no_command (s : pystr) :
  no_command s = true -> no_command (strip uni_space s) = true.
Proof.
  intros H. unfold strip.
  destruct (lstrip_split uni_space s) as [w Hw].
  rewrite Hw in H. apply no_command_suffix in H.
  destruct (rstrip_split uni_space (lstrip uni_space s)) as [w' Hw'].
  rewrite Hw' in H. now apply no_command_prefix in H.
Qed.

Lemma _strip_latex_commands_clean (s : pystr) :
  stripped uni_space (_strip_latex_commands s)
  /\ spaced uni_space false (_strip_latex_commands s) = true
  /\ no_command (_strip_latex_commands s) = true.
Proof.
  unfold _strip_latex_commands, re_sub_class_plus. cbv zeta.
  split; [apply strip_stripped|].
  split; [apply strip_spaced, collapse_spaced|].
  apply strip_no_command, collapse_no_command.
  apply (remove_commands_no_command _).
Qed.

Lemma _strip_latex_commands_Forall (Q : char -> Prop) (s : pystr) :
  Q 92 -> Q 49 -> Q 32 -> Forall Q s ->
  Forall Q (_strip_latex_commands s).
Proof.
  intros H92 H49 H32 Hs. unfold _strip_latex_commands, re_sub_class_plus.
  cbv zeta. apply strip_Forall, sub_runs_keeps; [repeat constructor; auto|].
  apply re_sub_Forall; [constructor|].
  apply re_sub_Forall; [repeat constructor; auto | exact Hs].
Qed.

(** X9: every entry that [parse_toc] returns has a page number that is not
    negative, and a title without closing brace, without whitespace at
    its ends, whose only whitespace is single spaces, and in which no
    backslash is followed by a letter. *)
Theorem parse_toc_entries (content : pystr) (entries : list OutlineEntry) :
  parse_toc content = Some entries ->
  Forall
    (fun e : OutlineEntry =>
       (0 <= snd e)%Z
       /\ ~ In 125 (fst e)
       /\ stripped uni_space (fst e)
       /\ spaced uni_space false (fst e) = true
       /\ no_command (fst e) = true)
    entries.
Proof.
  rewrite parse_toc_eq.
  destruct (forallb _ _); [|discriminate]. intros [= <-].
  apply Forall_forall. intros e He.
  apply in_map_iff in He. destruct He as [[raw digits] [<- Hin]].
  unfold chapter_entry. cbn [fst snd].
  apply finditer_found in Hin. destruct Hin as [s' [rest Hm]].
  apply match_chapter_inv in Hm. destruct Hm as [_ [Hraw _]].
  split; [unfold int_value; lia|].
  split.
  - assert (H : Forall (fun c => c <> 125)
                  (_strip_latex_commands (strip uni_space raw))).
    { apply _strip_latex_commands_Forall; try discriminate.
      apply strip_Forall. revert Hraw. apply Forall_impl.
      intros c Hc ->. discriminate. }
    rewrite Forall_forall in H. intros Hin. now apply (H _ Hin).
  - apply _strip_latex_commands_clean.
Qed.

(** *** Reading back a table of contents *)

Lemma decimal_value_digit (k : N) :
  k < 10 -> decimal_value (48 + k) = Some k.
Proof.
  intros H. unfold decimal_value.
  replace (48 + k <? 128) with true by (symmetry; apply N.ltb_lt; lia).
  replace (48 <=? 48 + k) with true by (symmetry; apply N.leb_le; lia).
  replace (48 + k <=? 57) with true by (symmetry; apply N.leb_le; lia).
  cbn [andb]. f_equal. lia.
Qed.

(** One step of [int]: the digit [c] after the digits read so far. *)
Definition int_step (acc : N) (c : char) : N :=
  acc * 10 + match decimal_value c with
             | Some v => v
             | None => 0
             end.

Lemma int_step_digit (acc k : N) :
  k < 10 -> int_step acc (48 + k) = acc * 10 + k.
Proof. intros H. unfold int_step. now rewrite decimal_value_digit. Qed.

Lemma fold_digits_acc (d : Decimal.uint) :
  forall acc : positive,
    fold_left int_step (uint_chars d) (Npos acc)
    = Npos (Pos.of_uint_acc d acc).
Proof.
  induction d as [|d IH|d IH|d IH|d IH|d IH|d IH|d IH|d IH|d IH|d IH];
    intros acc; [reflexivity|..];
    cbn [uint_chars fold_left Pos.of_uint_acc]; rewrite <- IH; f_equal.
  - rewrite (int_step_digit _ 0) by lia. lia.
  - rewrite (int_step_digit _ 1) by lia. lia.
  - rewrite (int_step_digit _ 2) by lia. lia.
  - rewrite (int_step_digit _ 3) by lia. lia.
  - rewrite (int_step_digit _ 4) by lia. lia.
  - rewrite (int_step_digit _ 5) by lia. lia.
  - rewrite (int_step_digit _ 6) by lia. lia.
  - rewrite (int_step_digit _ 7) by lia. lia.
  - rewrite (int_step_digit _ 8) by lia. lia.
  - rewrite (int_step_digit _ 9) by lia. lia.
Qed.

Lemma fold_digits (d : Decimal.uint) :
  fold_left int_step (uint_chars d) 0 = N.of_uint d.
Proof.
  induction d as [|d IH|d IH|d IH|d IH|d IH|d IH|d IH|d IH|d IH|d IH];
    [reflexivity | exact IH | ..];
    cbn [uint_chars fold_left]; unfold N.of_uint; cbn [Pos.of_uint];
    rewrite <- fold_digits_acc; f_equal.
Qed.

(** [int] reads back the decimal digits of a number. *)
Lemma int_value_decimal (n : N) :
  int_value (uint_chars (N.to_uint n)) = Z.of_N n.
Proof.
  unfold int_value. f_equal.
  change (fold_left int_step (uint_chars (N.to_uint n)) 0 = n).
  rewrite fold_digits. apply DecimalN.Unsigned.of_to.
Qed.

Lemma uint_chars_decimal (d : Decimal.uint) :
  Forall (fun c => is_decimal c = true) (uint_chars d).
Proof.
  induction d; cbn [uint_chars]; constructor; auto.
Qed.

Lemma uint_chars_nil (d : Decimal.uint) : uint_chars d = [] -> d = Decimal.Nil.
Proof. destruct d; [reflexivity | discriminate..]. Qed.

Lemma decimal_not_nil (n : N) : uint_chars (N.to_uint n) <> [].
Proof.
  intros H. apply uint_chars_nil in H.
  pose proof (DecimalN.Unsigned.of_to n) as E. rewrite H in E.
  cbn in E. subst n. discriminate.
Qed.

Lemma skip_space_space (s : pystr) : skip_space (32 :: s) = skip_space s.
Proof.
  unfold skip_space. cbn [span]. now rewrite isspace_space.
Qed.

Lemma skip_space_stops (s : pystr) :
  stops (isspace uni_space) s -> skip_space s = s.
Proof.
  intros H. unfold skip_space.
  destruct s as [|c s]; [reflexivity|]. cbn [span stops] in *.
  now rewrite H.
Qed.

Lemma match_title_page_app (title digits rest : pystr) :
  Forall (fun c => not_closing c = true) title ->
  Forall (fun c => is_decimal c = true) digits ->
  digits <> [] ->
  match_title_page (title ++ str "}{" ++ digits ++ str "}" ++ rest)
  = Some ((title, digits), rest).
Proof.
  intros Ht Hd Hne. unfold match_title_page.
  rewrite (span_exact not_closing title _ Ht) by reflexivity.
  cbn [fst snd]. rewrite match_literal_app.
  rewrite (span_exact is_decimal digits _ Hd) by reflexivity.
  cbn [fst snd]. rewrite match_literal_app.
  destruct digits; [contradiction | reflexivity].
Qed.

Lemma match_numberline_app (number rest : pystr) :
  Forall (fun c => not_closing c = true) number ->
  match_numberline (str "\numberline {" ++ number ++ str "}" ++ rest)
  = Some rest.
Proof.
  intros Hn. unfold match_numberline.
  change (str "\numberline {" ++ number ++ str "}" ++ rest)
    with (str "\numberline" ++ 32 :: str "{" ++ number ++ str "}" ++ rest).
  rewrite match_literal_app, skip_space_space.
  rewrite skip_space_stops by reflexivity.
  rewrite match_literal_app.
  rewrite (span_exact not_closing number _ Hn) by reflexivity.
  cbn [snd]. apply match_literal_app.
Qed.

Lemma match_chapter_app (number title digits rest : pystr) :
  Forall (fun c => not_closing c = true) number ->
  Forall (fun c => not_closing c = true) title ->
  Forall (fun c => is_decimal c = true) digits ->
  digits <> [] ->
  match_chapter
    (str "\contentsline {chapter}{" ++ str "\numberline {" ++ number
     ++ str "}" ++ title ++ str "}{" ++ digits ++ str "}" ++ rest)
  = Some ((title, digits), rest).
Proof.
  intros Hn Ht Hd Hne. unfold match_chapter.
  change (str "\contentsline {chapter}{" ++ ?x)
    with (str "\contentsline" ++ 32 :: str "{chapter}{" ++ x).
  rewrite match_literal_app, skip_space_space.
  rewrite skip_space_stops by reflexivity.
  rewrite match_literal_app. cbv zeta.
  rewrite skip_space_stops by reflexivity.
  rewrite (match_numberline_app number _ Hn).
  now rewrite match_title_page_app.
Qed.

(** Apart from the closing brace and the backslash. *)
Definition plain (s : pystr) : Prop :=
  Forall (fun c => c <> 92 /\ c <> 125) s.

Lemma plain_not_closing (s : pystr) :
  plain s -> Forall (fun c => not_closing c = true) s.
Proof.
  apply Forall_impl. intros c [_ H]. unfold not_closing.
  now apply negb_true_iff, N.eqb_neq.
Qed.

Lemma plain_no_backslash (s : pystr) :
  plain s -> Forall (fun c => c <> 92) s.
Proof. apply Forall_impl. now intros c [H _]. Qed.

Lemma re_sub_plain_id {A : Type} (matcher : pystr -> option (A * pystr))
    (repl : A -> pystr) (s : pystr) :
  at_backslash matcher -> Forall (fun c => c <> 92) s ->
  re_sub matcher repl s = s.
Proof.
  intros Hm Hs. rewrite <- (app_nil_r s) at 1.
  rewrite re_sub_plain by assumption. apply app_nil_r.
Qed.

(** A title without backslash whose whitespace is in order is kept as
    it is. *)
Lemma _strip_latex_commands_plain (t : pystr) :
  Forall (fun c => c <> 92) t ->
  stripped uni_space t -> spaced uni_space false t = true ->
  _strip_latex_commands (strip uni_space t) = t.
Proof.
  intros Hp Hst Hsp. rewrite (strip_id _ _ Hst).
  unfold _strip_latex_commands, re_sub_class_plus. cbv zeta.
  rewrite (re_sub_plain_id match_braced_command _ t
             match_braced_command_backslash Hp).
  change (re_sub (fun s => option_map (fun r => (tt, r)) (match_command s)))
    with (re_sub command_matcher).
  rewrite (re_sub_plain_id command_matcher _ t
             command_matcher_backslash Hp).
  rewrite (spaced_collapse_id _ _ _ Hsp). now apply strip_id.
Qed.

(** A line of a table of contents as LaTeX writes it:
    [\contentsline {kind}{\numberline {number}title}{page}{kind.number}]. *)
Record TocLine : Type := mkTocLine
  { line_kind : pystr;
    line_number : pystr;
    line_title : pystr;
    line_page : N }.

Definition render_line (l : TocLine) : pystr :=
  str "\contentsline {" ++ line_kind l ++ str "}{"
  ++ str "\numberline {" ++ line_number l ++ str "}" ++ line_title l
  ++ str "}{" ++ uint_chars (N.to_uint (line_page l)) ++ str "}"
  ++ str "{" ++ line_kind l ++ str "." ++ line_number l ++ str "}" ++ [10].

Definition is_chapter (l : TocLine) : bool :=
  if list_eq_dec N.eq_dec (line_kind l) (str "chapter") then true else false.

(** The kind, the number and the title hold neither backslash nor closing
    brace, and the whitespace of the title is in order. *)
Definition line_ok (l : TocLine) : Prop :=
  plain (line_kind l) /\ plain (line_number l) /\ plain (line_title l)
  /\ stripped uni_space (line_title l)
  /\ spaced uni_space false (line_title l) = true.

Lemma split_at_delimiter (d : char) (a : pystr) :
  forall b x y,
    Forall (fun c => c <> d) a -> Forall (fun c => c <> d) b ->
    a ++ d :: x = b ++ d :: y -> a = b.
Proof.
  induction a as [|c a IH]; intros [|c' b] x y Ha Hb H; cbn [app] in H.
  - reflexivity.
  - injection H as <- _. inversion Hb as [|? ? Hc _]. contradiction.
  - injection H as -> _. inversion Ha as [|? ? Hc _]. contradiction.
  - injection H as -> H. f_equal.
    inversion Ha; inversion Hb; subst. now apply (IH b x y).
Qed.

Lemma match_chapter_other (kind x : pystr) :
  plain kind -> kind <> str "chapter" ->
  match_chapter (str "\contentsline {" ++ kind ++ str "}{" ++ x) = None.
Proof.
  intros Hk Hne. unfold match_chapter.
  change (str "\contentsline {" ++ kind ++ str "}{" ++ x)
    with (str "\contentsline" ++ 32 :: 123 :: kind ++ str "}{" ++ x).
  rewrite match_literal_app, skip_space_space.
  rewrite skip_space_stops by reflexivity.
  destruct (match_literal (str "{chapter}{") (123 :: kind ++ str "}{" ++ x))
    as [r|] eqn:E; [|reflexivity].
  exfalso. apply Hne. apply match_literal_inv in E.
  change (str "{chapter}{" ++ r) with (123 :: str "chapter" ++ 125 :: 123 :: r)
    in E.
  change (str "}{" ++ x) with (125 :: 123 :: x) in E.
  injection E as E.
  refine (split_at_delimiter 125 kind (str "chapter") (123 :: x) (123 :: r)
            _ _ E).
  - revert Hk. apply Forall_impl. now intros c [_ H].
  - repeat constructor; discriminate.
Qed.

Lemma finditer_render_line (l : TocLine) (rest : pystr) :
  line_ok l ->
  finditer match_chapter (render_line l ++ rest)
  = (if is_chapter l
     then [(line_title l, uint_chars (N.to_uint (line_page l)))]
     else [])
    ++ finditer match_chapter rest.
Proof.
  intros [Hk [Hn [Ht _]]]. unfold render_line, is_chapter.
  set (digits := uint_chars (N.to_uint (line_page l))).
  assert (Htail : forall x,
             finditer match_chapter
               ((str "{" ++ line_kind l ++ str "." ++ line_number l
                 ++ str "}" ++ [10]) ++ x)
             = finditer match_chapter x).
  { intros x. apply finditer_plain; [apply match_chapter_backslash|].
    repeat (apply Forall_app; split);
      try (repeat constructor; discriminate);
      now apply plain_no_backslash. }
  rewrite <- !app_assoc.
  destruct (list_eq_dec N.eq_dec (line_kind l) (str "chapter")) as [E|E].
  - rewrite E at 1.
    change (str "\contentsline {" ++ str "chapter" ++ str "}{" ++ ?x)
      with (str "\contentsline {chapter}{" ++ x).
    rewrite (finditer_match match_chapter _ (line_title l, digits)
               (str "{" ++ line_kind l ++ str "." ++ line_number l
                ++ str "}" ++ [10] ++ rest) match_chapter_consumes).
    + cbn [app]. f_equal.
      specialize (Htail rest). rewrite <- !app_assoc in Htail. exact Htail.
    + apply match_chapter_app;
        try (now apply plain_not_closing);
        [apply uint_chars_decimal | apply decimal_not_nil].
  - cbn [app].
    change (str "\contentsline {" ++ ?x)
      with (92 :: str "contentsline {" ++ x).
    rewrite finditer_nomatch
      by (apply (match_chapter_other (line_kind l) _ Hk E)).
    rewrite app_assoc, (app_assoc _ (str "}{")).
    rewrite finditer_plain;
      [| apply match_chapter_backslash
       | repeat (apply Forall_app; split);
         try (repeat constructor; discriminate);
         now apply plain_no_backslash ].
    change (str "\numberline {" ++ ?x) with (92 :: str "numberline {" ++ x).
    rewrite finditer_nomatch by reflexivity.
    rewrite !app_assoc.
    rewrite finditer_plain;
      [ reflexivity
      | apply match_chapter_backslash
      | repeat (apply Forall_app; split);
        try (repeat constructor; discriminate);
        try (now apply plain_no_backslash) ].
    apply Forall_forall. intros c Hc. subst digits.
    pose proof (uint_chars_decimal (N.to_uint (line_page l))) as Hd.
    rewrite Forall_forall in Hd. specialize (Hd c Hc). intros ->.
    discriminate.
Qed.

Lemma forallb_of_map {A B : Type} (f : B -> bool) (g : A -> B) (l : list A) :
  forallb f (map g l) = forallb (fun x => f (g x)) l.
Proof.
  induction l as [|x l IH]; cbn [map forallb]; [reflexivity|].
  now rewrite IH.
Qed.

(** The digits of the page of a line, as [render_line] writes them. *)
Definition page_digits (l : TocLine) : pystr :=
  uint_chars (N.to_uint (line_page l)).

(** X10: a table of contents written line by line is read back.  When the
    page of every chapter line has no more digits than the limit of the
    interpreter, the chapter lines give their titles and pages, in
    order, and the lines of every other kind (sections, figures) are
    passed over; when the page of a chapter line has more digits,
    [parse_toc] raises. *)
Theorem parse_toc_render (lines : list TocLine) :
  Forall line_ok lines ->
  parse_toc (flat_map render_line lines)
  = if forallb (fun l => within_limit (page_digits l))
         (filter is_chapter lines)
    then Some (map (fun l => (line_title l, Z.of_N (line_page l)))
                 (filter is_chapter lines))
    else None.
Proof.
  intros Hok. rewrite parse_toc_eq.
  assert (Hfind :
    finditer match_chapter (flat_map render_line lines)
    = map (fun l => (line_title l, page_digits l))
        (filter is_chapter lines)).
  { induction Hok as [|l lines Hl Hok IH]; [reflexivity|].
    cbn [flat_map filter]. rewrite (finditer_render_line l _ Hl), IH.
    destruct (is_chapter l); reflexivity. }
  rewrite Hfind, forallb_of_map, map_map. cbn [snd].
  destruct (forallb _ _); [|reflexivity]. f_equal.
  apply map_ext_in. intros l Hl.
  apply filter_In in Hl. destruct Hl as [Hl _].
  rewrite Forall_forall in Hok. destruct (Hok l Hl) as [_ [_ [Ht [Hst Hsp]]]].
  unfold chapter_entry. cbn [fst snd]. f_equal.
  - apply _strip_latex_commands_plain; auto using plain_no_backslash.
  - apply int_value_decimal.
Qed.

(** X13: a command with an argument in braces is replaced by a backslash and
    the digit 1, and its argument is lost: the template of the first
    substitution is an escaped backslash followed by [1], not a reference
    to the group. *)
Theorem _strip_latex_commands_braced (letters ws arg : pystr) :
  letters <> [] ->
  Forall (fun c => is_letter c = true) letters ->
  Forall (fun c => isspace uni_space c = true) ws ->
  Forall (fun c => c <> 125) arg ->
  _strip_latex_commands (92 :: letters ++ ws ++ str "{" ++ arg ++ str "}")
  = [92; 49].
Proof.
  intros Hne Hl Hw Ha.
  assert (Hm : match_braced_command
                 (92 :: letters ++ ws ++ str "{" ++ arg ++ str "}")
               = Some (arg, [])).
  { unfold match_braced_command.
    rewrite (match_command_app letters _ Hne Hl).
    - unfold skip_space.
      rewrite (span_exact (isspace uni_space) ws _ Hw) by reflexivity.
      cbn [snd]. rewrite match_literal_app.
      rewrite (span_exact not_closing arg (str "}")); [reflexivity | |
                                                       reflexivity].
      revert Ha. apply Forall_impl. intros c Hc.
      now apply negb_true_iff, N.eqb_neq.
    - destruct ws as [|c ws]; [reflexivity|]. cbn [app stops].
      inversion Hw as [|? ? Hc _]; subst.
      destruct (is_letter c) eqn:E; [|reflexivity].
      apply letter_not_space in E. congruence. }
  unfold _strip_latex_commands. cbv zeta.
  rewrite (re_sub_match match_braced_command _ _ arg []
             match_braced_command_consumes Hm).
  reflexivity.
Qed.

(** *** Chapter lines that are passed over *)

(** Neither backslash nor brace. *)
Definition brace_free (s : pystr) : Prop :=
  Forall (fun c => c <> 92 /\ c <> 123 /\ c <> 125) s.

Lemma brace_free_plain (s : pystr) : brace_free s -> plain s.
Proof. apply Forall_impl. intros c [H1 [_ H2]]. now split. Qed.

Lemma brace_free_head (s x : pystr) (c : char) :
  brace_free s -> c <> 123 -> stops (fun d => d =? 123) (s ++ c :: x).
Proof.
  intros Hs Hc. destruct s as [|d s]; cbn [app stops].
  - now apply N.eqb_neq.
  - inversion Hs as [|? ? [_ [Hd _]] _]. now apply N.eqb_neq.
Qed.

Lemma split_at_delimiter_tail (d : char) (a b x y : pystr) :
  Forall (fun c => c <> d) a -> Forall (fun c => c <> d) b ->
  a ++ d :: x = b ++ d :: y -> x = y.
Proof.
  intros Ha Hb H. pose proof (split_at_delimiter d a b x y Ha Hb H) as E.
  subst b. apply app_inv_head in H. now injection H.
Qed.

Lemma not_closing_neq (s : pystr) :
  Forall (fun c => not_closing c = true) s -> Forall (fun c => c <> 125) s.
Proof.
  apply Forall_impl. intros c H ->. discriminate.
Qed.

Lemma match_title_page_digits (s title digits rest : pystr) :
  match_title_page s = Some ((title, digits), rest) -> digits <> [].
Proof.
  unfold match_title_page.
  destruct (match_literal (str "}{") (snd (span not_closing s)))
    as [r|]; [|discriminate].
  destruct (fst (span is_decimal r)) as [|d ds]; [discriminate|].
  destruct (match_literal (str "}") (snd (span is_decimal r)));
    [|discriminate].
  intros H. injection H as _ <- _. discriminate.
Qed.

(** A title group cannot end where the closing brace is not followed by
    an opening one. *)
Lemma match_title_page_stops (t x : pystr) :
  Forall (fun c => c <> 125) t ->
  stops (fun d => d =? 123) x ->
  match_title_page (t ++ 125 :: x) = None.
Proof.
  intros Ht Hx.
  destruct (match_title_page (t ++ 125 :: x)) as [[[t' d] r]|] eqn:E;
    [|reflexivity].
  exfalso. apply match_title_page_inv in E. destruct E as [E [Ht' _]].
  change (t' ++ str "}{" ++ d ++ str "}" ++ r)
    with (t' ++ 125 :: 123 :: d ++ str "}" ++ r) in E.
  apply split_at_delimiter_tail in E; [|exact Ht | now apply not_closing_neq].
  subst x. cbn [stops] in Hx. discriminate.
Qed.

Lemma match_chapter_line (number body : pystr) :
  Forall (fun c => not_closing c = true) number ->
  match_chapter
    (str "\contentsline {chapter}{" ++ str "\numberline {" ++ number
     ++ str "}" ++ body)
  = match match_title_page body with
    | Some m => Some m
    | None =>
        match_title_page (str "\numberline {" ++ number ++ str "}" ++ body)
    end.
Proof.
  intros Hn. unfold match_chapter.
  change (str "\contentsline {chapter}{" ++ ?x)
    with (str "\contentsline" ++ 32 :: str "{chapter}{" ++ x).
  rewrite match_literal_app, skip_space_space.
  rewrite skip_space_stops by reflexivity.
  rewrite match_literal_app. cbv zeta.
  rewrite skip_space_stops by reflexivity.
  now rewrite (match_numberline_app number _ Hn).
Qed.

(** The pattern fails on a chapter line whose title does not begin with
    an opening brace, as soon as it fails on what follows the number. *)
Lemma match_chapter_line_none (number body : pystr) :
  plain number ->
  stops (fun d => d =? 123) body ->
  match_title_page body = None ->
  match_chapter
    (str "\contentsline {chapter}{" ++ str "\numberline {" ++ number
     ++ str "}" ++ body)
  = None.
Proof.
  intros Hn Hb Hbody.
  rewrite (match_chapter_line number body (plain_not_closing _ Hn)), Hbody.
  change (str "\numberline {" ++ number ++ str "}" ++ body)
    with ((str "\numberline {" ++ number) ++ 125 :: body).
  apply match_title_page_stops; [|exact Hb].
  apply Forall_app. split; [repeat constructor; discriminate|].
  revert Hn. apply Forall_impl. now intros c [_ H].
Qed.

(** The rest of a chapter line on which the pattern failed, when what
    follows the number holds no match either. *)
Lemma finditer_chapter_line (number body rest : pystr) :
  plain number ->
  match_chapter
    (str "\contentsline {chapter}{" ++ str "\numberline {" ++ number
     ++ str "}" ++ body ++ rest)
  = None ->
  finditer match_chapter (body ++ rest) = finditer match_chapter rest ->
  finditer match_chapter
    (str "\contentsline {chapter}{" ++ str "\numberline {" ++ number
     ++ str "}" ++ body ++ rest)
  = finditer match_chapter rest.
Proof.
  intros Hn Hno Hbody.
  change (str "\contentsline {chapter}{" ++ str "\numberline {"
          ++ number ++ str "}" ++ body ++ rest)
    with (92 :: str "contentsline {chapter}{"
          ++ 92 :: str "numberline {" ++ number ++ str "}" ++ body ++ rest)
    in Hno |- *.
  rewrite finditer_nomatch by exact Hno.
  rewrite (finditer_plain match_chapter (str "contentsline {chapter}{"));
    [| apply match_chapter_backslash | repeat constructor; discriminate].
  rewrite finditer_nomatch by reflexivity.
  rewrite (finditer_plain match_chapter (str "numberline {"));
    [| apply match_chapter_backslash | repeat constructor; discriminate].
  rewrite (finditer_plain match_chapter number);
    [| apply match_chapter_backslash | now apply plain_no_backslash].
  rewrite (finditer_plain match_chapter (str "}"));
    [exact Hbody | apply match_chapter_backslash
     | repeat constructor; discriminate].
Qed.

Lemma decimal_neq_closing (s : pystr) :
  Forall (fun c => is_decimal c = true) s -> Forall (fun c => c <> 125) s.
Proof. apply Forall_impl. intros c H ->. discriminate. Qed.

Lemma letters_neq (d : char) (s : pystr) :
  is_letter d = false ->
  Forall (fun c => is_letter c = true) s -> Forall (fun c => c <> d) s.
Proof. intros Hd. apply Forall_impl. intros c H ->. congruence. Qed.

Lemma spaces_neq (d : char) (s : pystr) :
  isspace uni_space d = false ->
  Forall (fun c => isspace uni_space c = true) s ->
  Forall (fun c => c <> d) s.
Proof. intros Hd. apply Forall_impl. intros c H ->. congruence. Qed.

(** The pattern does not match at a command with an argument in braces
    that is followed by no opening brace. *)
Lemma match_chapter_command (cmd arg y : pystr) :
  Forall (fun c => is_letter c = true) cmd ->
  Forall (fun c => c <> 125) arg ->
  stops (fun d => d =? 123) y ->
  match_chapter (92 :: cmd ++ 123 :: arg ++ 125 :: y) = None.
Proof.
  intros Hc Ha Hy.
  destruct (match_chapter (92 :: cmd ++ 123 :: arg ++ 125 :: y))
    as [m|] eqn:E; [|reflexivity].
  exfalso. unfold match_chapter, skip_space in E.
  destruct (match_literal (str "\contentsline")
              (92 :: cmd ++ 123 :: arg ++ 125 :: y)) as [r|] eqn:E1;
    [|discriminate].
  pose proof (span_app (isspace uni_space) r) as Hr.
  pose proof (span_all (isspace uni_space) r) as Hws.
  destruct (match_literal (str "{chapter}{")
              (snd (span (isspace uni_space) r))) as [r1|] eqn:E2;
    [|discriminate].
  clear E. apply match_literal_inv in E1, E2.
  rewrite Hr, E2 in E1.
  change (str "\contentsline" ++ ?x) with (92 :: str "contentsline" ++ x)
    in E1.
  injection E1 as E1.
  assert (E : cmd ++ 123 :: (arg ++ 125 :: y)
              = (str "contentsline" ++ fst (span (isspace uni_space) r))
                ++ 123 :: (str "chapter" ++ 125 :: 123 :: r1))
    by (rewrite <- app_assoc; exact E1).
  clear E1. rename E into E1.
  apply split_at_delimiter_tail in E1.
  - apply split_at_delimiter_tail in E1;
      [| exact Ha | repeat constructor; discriminate].
    subst y. cbn [stops] in Hy. discriminate.
  - now apply (letters_neq 123).
  - apply Forall_app. split; [repeat constructor; discriminate|].
    now apply (spaces_neq 123).
Qed.

(** X11: a chapter line whose title holds a command with an argument in
    braces gives no entry: the title group cannot go past the closing
    brace of the argument. *)
Theorem parse_toc_skips_markup
    (number before cmd arg after page anchor rest : pystr) :
  plain number -> brace_free before ->
  Forall (fun c => is_letter c = true) cmd ->
  brace_free arg -> brace_free after ->
  plain page -> Forall (fun c => c <> 92) anchor ->
  parse_toc
    (str "\contentsline {chapter}{" ++ str "\numberline {" ++ number
     ++ str "}"
     ++ (before ++ 92 :: cmd ++ str "{" ++ arg ++ str "}" ++ after)
     ++ str "}{" ++ page ++ str "}" ++ anchor ++ rest)
  = parse_toc rest.
Proof.
  intros Hn Hb Hc Ha Hp Hpg Han. unfold parse_toc. f_equal.
  set (y := after ++ 125 :: 123 :: page ++ 125 :: anchor).
  assert (Hy : stops (fun d => d =? 123) (y ++ rest)).
  { subst y. rewrite <- app_assoc. cbn [app].
    now apply brace_free_head. }
  assert (Harg : Forall (fun c => c <> 125) arg)
    by (revert Ha; apply Forall_impl; now intros c [_ [_ H]]).
  replace ((before ++ 92 :: cmd ++ str "{" ++ arg ++ str "}" ++ after)
           ++ str "}{" ++ page ++ str "}" ++ anchor ++ rest)
    with ((before ++ 92 :: cmd ++ 123 :: arg ++ 125 :: y) ++ rest).
  2:{ subst y. cbn [str map list_ascii_of_string].
      repeat (rewrite <- app_assoc || rewrite <- app_comm_cons).
      reflexivity. }
  assert (Hbody : (before ++ 92 :: cmd ++ 123 :: arg ++ 125 :: y) ++ rest
                  = (before ++ 92 :: cmd ++ 123 :: arg)
                    ++ 125 :: (y ++ rest)).
  { repeat (rewrite <- app_assoc || rewrite <- app_comm_cons).
    reflexivity. }
  apply finditer_chapter_line; [exact Hn | |].
  - apply match_chapter_line_none; [exact Hn | |].
    + rewrite <- app_assoc. now apply brace_free_head.
    + rewrite Hbody. apply match_title_page_stops; [|exact Hy].
      apply Forall_app. split;
        [revert Hb; apply Forall_impl; now intros c [_ [_ H]]|].
      constructor; [discriminate|]. apply Forall_app. split;
        [now apply (letters_neq 125)|].
      constructor; [discriminate | exact Harg].
  - assert (Hsplit :
      (before ++ 92 :: cmd ++ 123 :: arg ++ 125 :: y) ++ rest
      = before ++ 92 :: cmd ++ 123 :: arg ++ 125 :: (y ++ rest)).
    { repeat (rewrite <- app_assoc || rewrite <- app_comm_cons).
      reflexivity. }
    rewrite Hsplit.
    rewrite finditer_plain;
      [| apply match_chapter_backslash
       | revert Hb; apply Forall_impl; now intros c [H _]].
    rewrite finditer_nomatch
      by (apply match_chapter_command; assumption).
    assert (Hrest :
      cmd ++ 123 :: arg ++ 125 :: (y ++ rest)
      = (cmd ++ 123 :: arg ++ 125 :: y) ++ rest).
    { repeat (rewrite <- app_assoc || rewrite <- app_comm_cons).
      reflexivity. }
    rewrite Hrest.
    apply finditer_plain; [apply match_chapter_backslash|].
    apply Forall_app. split; [now apply (letters_neq 92)|].
    constructor; [discriminate|].
    apply Forall_app. split;
      [revert Ha; apply Forall_impl; now intros c [H _]|].
    constructor; [discriminate|]. subst y.
    apply Forall_app. split;
      [revert Hp; apply Forall_impl; now intros c [H _]|].
    repeat (constructor; [discriminate|]).
    apply Forall_app. split; [now apply plain_no_backslash|].
    constructor; [discriminate | exact Han].
Qed.

(** X12: a chapter line whose page is not written with decimal digits only
    (a roman numeral, say) gives no entry. *)
Theorem parse_toc_skips_page (number t page anchor rest : pystr) :
  plain number -> brace_free t -> plain page ->
  ~ (page <> [] /\ Forall (fun c => is_decimal c = true) page) ->
  Forall (fun c => c <> 92) anchor ->
  parse_toc
    (str "\contentsline {chapter}{" ++ str "\numberline {" ++ number
     ++ str "}" ++ t ++ str "}{" ++ page ++ str "}" ++ anchor ++ rest)
  = parse_toc rest.
Proof.
  intros Hn Ht Hpg Hbad Han. unfold parse_toc. f_equal.
  assert (Ht125 : Forall (fun c => c <> 125) t)
    by (revert Ht; apply Forall_impl; now intros c [_ [_ H]]).
  replace (t ++ str "}{" ++ page ++ str "}" ++ anchor ++ rest)
    with ((t ++ str "}{" ++ page ++ str "}" ++ anchor) ++ rest)
    by (now rewrite <- !app_assoc).
  apply finditer_chapter_line; [exact Hn | |].
  - apply match_chapter_line_none; [exact Hn | |].
    + rewrite <- app_assoc. now apply brace_free_head.
    + destruct (match_title_page
                  ((t ++ str "}{" ++ page ++ str "}" ++ anchor) ++ rest))
        as [[[t' d] r]|] eqn:E; [|reflexivity].
      exfalso. apply Hbad.
      pose proof (match_title_page_digits _ _ _ _ E) as Hd.
      apply match_title_page_inv in E. destruct E as [E [Ht' Hdec]].
      rewrite <- !app_assoc in E.
      change (t ++ str "}{" ++ ?x) with (t ++ 125 :: 123 :: x) in E.
      change (t' ++ str "}{" ++ ?x) with (t' ++ 125 :: 123 :: x) in E.
      apply split_at_delimiter_tail in E;
        [| exact Ht125 | now apply not_closing_neq].
      injection E as E.
      change (page ++ str "}" ++ ?x) with (page ++ 125 :: x) in E.
      change (d ++ str "}" ++ r) with (d ++ 125 :: r) in E.
      apply split_at_delimiter in E;
        [| revert Hpg; apply Forall_impl; now intros c [_ H]
         | now apply decimal_neq_closing].
      subst d. now split.
  - apply finditer_plain; [apply match_chapter_backslash|].
    apply Forall_app. split;
      [revert Ht; apply Forall_impl; now intros c [H _]|].
    repeat (constructor; [discriminate|]).
    apply Forall_app. split; [now apply plain_no_backslash|].
    constructor; [discriminate | exact Han].
Qed.

End Outline.

(** ** The command line *)

Section Main.

Variable uni_space : char -> bool.
Variable uni_alnum : char -> bool.
Variable uni_decimal : char -> option N.
Variable max_str_digits : nat.

(** The options of the command line that [main] looks at.  The paths
    [--toc], [--pdf] and [--output-dir] are left out: the files they name
    are arguments of [main] below. *)
Record Args : Type := mkArgs
  { toc_only : bool;
    chapter_index : option Z;
    no_predefined_names : bool }.

(** [str(z)] for an integer, as an f-string writes it.  The integers that
    [main] writes are positions in the outline, start pages that [int]
    has read, and end pages, each one less than a start page or the
    number of pages of the document. *)
Definition format_int (z : Z) : pystr :=
  if z <? 0
  then 45%N :: uint_chars (N.to_uint (Z.to_N (- z)))
  else uint_chars (N.to_uint (Z.to_N z)).

(** [f"{idx}: '{r.title}' -> start {r.start_page}, end {r.end_page}"] *)
Definition range_line (idx : nat) (r : ChapterRange) : pystr :=
  format_int (Z.of_nat idx) ++ str ": '" ++ title r ++ str "' -> start "
  ++ format_int (start_page r) ++ str ", end " ++ format_int (end_page r).

(** The lines printed by the loop over [enumerate(ranges)]. *)
Fixpoint print_ranges (idx : nat) (ranges : list ChapterRange)
    : list pystr :=
  match ranges with
  | [] => []
  | r :: ranges' => range_line idx r :: print_ranges (S idx) ranges'
  end.

(** What a run leaves behind: its result ([None] for an exception), the
    lines it printed and the files it wrote. *)
Record Outcome : Type := mkOutcome
  { result : option unit;
    stdout : list pystr;
    files : list (pystr * list Page) }.

(** [main].  [toc_file] is the text of the file named by [--toc], and
    [pdf_file] the pages of the document named by [--pdf]; [None] when the
    file does not exist. *)
Definition main (args : Args) (toc_file : option pystr)
    (pdf_file : option (list Page)) : Outcome :=
  match toc_file with
  | None => mkOutcome None [] []   (* FileNotFoundError: TOC not found *)
  | Some content =>
      match pdf_file with
      | None => mkOutcome None [] []   (* FileNotFoundError: PDF not found *)
      | Some pages =>
          match parse_toc uni_space uni_decimal max_str_digits content with
          | None => mkOutcome None [] []   (* ValueError of int *)
          | Some toc_entries =>
              let total_pages := Z.of_nat (length pages) in
              match compute_ranges toc_entries total_pages with
              | None => mkOutcome None [] []
              | Some ranges =>
                  (* Print ranges *)
                  let printed := print_ranges 0 ranges in
                  if toc_only args
                  then mkOutcome (Some tt) printed []
                  else
                    let run :=
                      split_pdf uni_space uni_alnum ranges
                        (negb (no_predefined_names args)) (chapter_index args)
                        (mkWorld pages []) in
                    mkOutcome (fst run) printed (written (snd run))
              end
          end
      end
  end.

Lemma print_ranges_length (ranges : list ChapterRange) :
  forall idx, length (print_ranges idx ranges) = length ranges.
Proof.
  induction ranges as [|r ranges IH]; intros idx; cbn [print_ranges length];
    [reflexivity | now rewrite IH].
Qed.

(** X14: with [--toc-only] nothing is written, whatever the other options.
    When [parse_toc] returns, the run completes and prints one line per
    entry of the outline; when [parse_toc] raises, so does the run, and
    nothing is printed. *)
Theorem main_toc_only (args : Args) (content : pystr) (pages : list Page) :
  toc_only args = true ->
  files (main args (Some content) (Some pages)) = []
  /\ match parse_toc uni_space uni_decimal max_str_digits content with
     | Some entries =>
         result (main args (Some content) (Some pages)) = Some tt
         /\ length (stdout (main args (Some content) (Some pages)))
            = length entries
     | None =>
         result (main args (Some content) (Some pages)) = None
         /\ stdout (main args (Some content) (Some pages)) = []
     end.
Proof.
  intros H. unfold main.
  destruct (parse_toc uni_space uni_decimal max_str_digits content)
    as [entries|]; [|repeat split].
  cbv zeta. rewrite compute_ranges_eq, H.
  cbn [result files stdout]. repeat split.
  now rewrite print_ranges_length, ranges_of_length.
Qed.

(** When the outline or the document is missing, or [parse_toc] raises,
    the run raises before anything is printed or written; otherwise one
    line per entry of the outline is printed, also when the split raises
    afterwards. *)
Theorem main_prints_before_splitting (args : Args) :
  (forall toc_file pdf_file,
      toc_file = None \/ pdf_file = None ->
      main args toc_file pdf_file = mkOutcome None [] [])
  /\ (forall content pages,
        parse_toc uni_space uni_decimal max_str_digits content = None ->
        main args (Some content) (Some pages) = mkOutcome None [] [])
  /\ (forall content pages entries,
        parse_toc uni_space uni_decimal max_str_digits content = Some entries ->
        length (stdout (main args (Some content) (Some pages)))
        = length entries).
Proof.
  split; [|split].
  - intros toc_file pdf_file [-> | ->]; [reflexivity|].
    now destruct toc_file.
  - intros content pages E. unfold main. now rewrite E.
  - intros content pages entries E. unfold main. rewrite E. cbv zeta.
    rewrite compute_ranges_eq.
    destruct (toc_only args); cbn [stdout];
      now rewrite print_ranges_length, ranges_of_length.
Qed.



End Main.

(** ** Instances of the further properties *)

(** A fragment of the table of decimal digits: the Arabic-Indic digits
    U+0660 to U+0669. *)
Definition arabic_indic (c : char) : option N :=
  if ((1632 <=? c) && (c <=? 1641))%N then Some (c - 1632)%N else None.

(** Three lines of a table of contents: two chapters and a section. *)
Definition sample_lines : list TocLine :=
  [ mkTocLine (str "chapter") (str "1") (str "Molecular biology") 1;
    mkTocLine (str "section") (str "1.1") (str "DNA") 2;
    mkTocLine (str "chapter") (str "2") (str "Genes") 4 ].

Definition sample_toc : pystr := flat_map render_line sample_lines.

(** The limit of an interpreter started without options. *)
Definition default_max_str_digits : nat := 4300.

(** A chapter line whose page has 4301 digits. *)
Definition long_page_toc : pystr :=
  str "\contentsline {chapter}{\numberline {1}Genome}{" ++ repeat 57%N 4301
  ++ str "}{chapter.1}".

Example parse_sample_toc :
  parse_toc unicode_space arabic_indic default_max_str_digits sample_toc
  = Some [(str "Molecular biology", 1); (str "Genes", 4)].
Proof. reflexivity. Qed.

Example parse_other_digits :
  parse_toc unicode_space arabic_indic default_max_str_digits
    (str "\contentsline {chapter}{  Preface }{" ++ [1635; 1636]%N ++ str "}")
  = Some [(str "Preface", 34)].
Proof. reflexivity. Qed.

Example parse_without_group :
  parse_toc unicode_space arabic_indic default_max_str_digits
    (str "\contentsline {chapter}{\numberline {1}{5}")
  = Some [(str "{1", 5)].
Proof. reflexivity. Qed.

Example parse_inner_entry :
  parse_toc unicode_space arabic_indic default_max_str_digits
    (str "\contentsline {chapter}{\numberline {1}a\contentsline{chapter}{b}{7}}{4}{chapter.1}")
  = Some [(str "b", 7)].
Proof. reflexivity. Qed.

(** The limit counts every digit: 4300 digits are read, 4301 are not,
    also when all but the last are zeros; without a limit they are. *)
Example int_limit :
  py_int arabic_indic default_max_str_digits (repeat 48%N 4299 ++ [49%N])
  = Some 1
  /\ py_int arabic_indic default_max_str_digits (repeat 48%N 4300 ++ [49%N])
     = None
  /\ py_int arabic_indic default_max_str_digits (repeat 1641%N 4301) = None
  /\ py_int arabic_indic 0 (repeat 48%N 4300 ++ [49%N]) = Some 1.
Proof. repeat split; vm_compute; reflexivity. Qed.

(** One page too long makes the whole call raise, also after entries
    that were read. *)
Example parse_long_page :
  parse_toc unicode_space arabic_indic default_max_str_digits long_page_toc
  = None
  /\ parse_toc unicode_space arabic_indic default_max_str_digits
       (sample_toc ++ long_page_toc)
     = None
  /\ main unicode_space latin_alnum arabic_indic default_max_str_digits
       (mkArgs true None false) (Some (sample_toc ++ long_page_toc))
       (Some five_pages)
     = mkOutcome None [] [].
Proof. repeat split; vm_compute; reflexivity. Qed.

Example strip_commands :
  _strip_latex_commands unicode_space
    (str "a \textit{Intro} b \emph  {x}c \foo{unclosed")
  = str "a \1 b \1c {unclosed".
Proof. reflexivity. Qed.

Example main_sample :
  main unicode_space latin_alnum arabic_indic default_max_str_digits
    (mkArgs false None true)
    (Some sample_toc) (Some five_pages)
  = mkOutcome (Some tt)
      [str "0: 'Molecular biology' -> start 1, end 3";
       str "1: 'Genes' -> start 4, end 5"]
      [(str "01-Molecular biology.pdf",
        [text_page "one"; text_page "two"; text_page "three"]);
       (str "02-Genes.pdf", [text_page "four"])].
Proof. reflexivity. Qed.

Lemma split_pdf_in_document_witness :
  exists files,
    split_pdf unicode_space latin_alnum
      [mkChapterRange (str "A") 1 2; mkChapterRange (str "B") 3 5]
      true None (mkWorld five_pages [])
    = (Some tt, mkWorld five_pages files)
    /\ length files = 2%nat.
Proof.
  destruct (split_pdf_in_document unicode_space latin_alnum
              [mkChapterRange (str "A") 1 2; mkChapterRange (str "B") 3 5]
              true (mkWorld five_pages []))
    as [files [Hrun [Hlen _]]].
  - repeat constructor; cbn; lia.
  - exists files. split; [exact Hrun | exact Hlen].
Defined.

Lemma split_pdf_covers_witness :
  exists files,
    split_pdf unicode_space latin_alnum
      [mkChapterRange (str "A") 1 2; mkChapterRange (str "B") 3 4]
      true None (mkWorld five_pages [])
    = (Some tt, mkWorld five_pages files)
    /\ concat (map snd files)
       = [text_page "one"; text_page "two"; text_page "three";
          text_page "four"].
Proof.
  destruct (split_pdf_covers unicode_space latin_alnum
              (mkChapterRange (str "A") 1 2) [mkChapterRange (str "B") 3 4]
              true (mkWorld five_pages []))
    as [files [Hrun [_ Hcat]]].
  - cbn. lia.
  - split; [repeat constructor; cbn; lia | cbn; lia].
  - repeat constructor.
  - exists files. split; [exact Hrun | exact Hcat].
Defined.

Lemma split_pdf_stops_at_first_failure_witness :
  split_pdf unicode_space latin_alnum
    ([mkChapterRange (str "A") 1 2]
     ++ mkChapterRange (str "B") 3 6 :: [mkChapterRange (str "C") 7 9])
    true None (mkWorld five_pages [])
  = (None,
     mkWorld five_pages
       [(str "01-mol-bio.pdf", [text_page "one"; text_page "two"])]).
Proof.
  apply (proj1 (split_pdf_stops_at_first_failure unicode_space latin_alnum
                  [mkChapterRange (str "A") 1 2]
                  (mkChapterRange (str "B") 3 6)
                  [mkChapterRange (str "C") 7 9] true
                  (mkWorld five_pages [])
                  ltac:(repeat constructor; cbn; lia)
                  ltac:(cbn; lia))).
Defined.

Lemma split_pdf_index_out_of_range_witness :
  split_pdf unicode_space latin_alnum
    [mkChapterRange (str "A") 1 2; mkChapterRange (str "B") 3 5]
    true (Some 2) (mkWorld five_pages [])
  = (Some tt, mkWorld five_pages []).
Proof.
  apply (split_pdf_index_out_of_range unicode_space latin_alnum).
  right. cbn. lia.
Defined.

Lemma compute_ranges_partition_witness :
  exists ranges,
    compute_ranges [(str "A", 1); (str "B", 3)] 5 = Some ranges
    /\ (forall p,
          1 <= p <= 5 ->
          exists i r,
            nth_error ranges i = Some r /\ page_in r p
            /\ forall j r',
                 nth_error ranges j = Some r' -> page_in r' p -> j = i)
    /\ (forall r p, In r ranges -> page_in r p -> 1 <= p <= 5).
Proof.
  apply (compute_ranges_partition (str "A") 1 [(str "B", 3)] 5).
  split; [cbn; lia | repeat constructor; cbn; lia].
Defined.

Lemma parse_toc_entries_witness :
  Forall
    (fun e : pystr * Z =>
       0 <= snd e
       /\ ~ In 125%N (fst e)
       /\ stripped unicode_space (fst e)
       /\ spaced unicode_space false (fst e) = true
       /\ no_command (fst e) = true)
    [(str "Molecular biology", 1); (str "Genes", 4)].
Proof.
  apply (parse_toc_entries unicode_space arabic_indic default_max_str_digits
           sample_toc).
  reflexivity.
Defined.

(** The lowest limit that an interpreter can be started with, and a
    chapter line whose page is the least number of 641 digits. *)
Definition lowest_max_str_digits : nat := 640.

Definition long_page_lines : list TocLine :=
  [ mkTocLine (str "chapter") (str "1") (str "Genome") (10 ^ 640)%N ].

Lemma parse_toc_render_witness :
  parse_toc unicode_space arabic_indic default_max_str_digits
    (flat_map render_line sample_lines)
  = Some [(str "Molecular biology", 1); (str "Genes", 4)]
  /\ parse_toc unicode_space arabic_indic lowest_max_str_digits
       (flat_map render_line (sample_lines ++ long_page_lines))
     = None.
Proof.
  split.
  - apply (parse_toc_render unicode_space arabic_indic default_max_str_digits
             sample_lines).
    unfold sample_lines.
    repeat constructor; cbn; try discriminate; reflexivity.
  - rewrite (parse_toc_render unicode_space arabic_indic
               lowest_max_str_digits (sample_lines ++ long_page_lines)).
    + vm_compute. reflexivity.
    + unfold sample_lines, long_page_lines.
      repeat constructor; cbn; try discriminate; reflexivity.
Defined.

Lemma parse_toc_skips_markup_witness :
  parse_toc unicode_space arabic_indic default_max_str_digits
    (str "\contentsline {chapter}{" ++ str "\numberline {" ++ str "1"
     ++ str "}"
     ++ (str "The " ++ 92%N :: str "textit" ++ str "{" ++ str "E. coli"
         ++ str "}" ++ str " genome")
     ++ str "}{" ++ str "7" ++ str "}" ++ str "{chapter.1}"
     ++ render_line (mkTocLine (str "chapter") (str "2") (str "Genes") 4))
  = parse_toc unicode_space arabic_indic default_max_str_digits
      (render_line (mkTocLine (str "chapter") (str "2") (str "Genes") 4)).
Proof.
  apply (parse_toc_skips_markup unicode_space arabic_indic
           default_max_str_digits);
    repeat constructor; discriminate.
Defined.

Lemma parse_toc_skips_page_witness :
  parse_toc unicode_space arabic_indic default_max_str_digits
    (str "\contentsline {chapter}{" ++ str "\numberline {" ++ str "1"
     ++ str "}" ++ str "Preface" ++ str "}{" ++ str "iv" ++ str "}"
     ++ str "{chapter.1}"
     ++ render_line (mkTocLine (str "chapter") (str "2") (str "Genes") 4))
  = parse_toc unicode_space arabic_indic default_max_str_digits
      (render_line (mkTocLine (str "chapter") (str "2") (str "Genes") 4)).
Proof.
  apply (parse_toc_skips_page unicode_space arabic_indic
           default_max_str_digits);
    try (repeat constructor; discriminate).
  intros [_ H]. inversion H as [|c l Hc _]. discriminate.
Defined.

Lemma _strip_latex_commands_braced_witness :
  _strip_latex_commands unicode_space
    (92%N :: str "textit" ++ str " " ++ str "{" ++ str "E. coli" ++ str "}")
  = [92; 49]%N.
Proof.
  apply (_strip_latex_commands_braced unicode_space (str "textit") (str " ")
           (str "E. coli"));
    [discriminate | repeat constructor.. | repeat constructor; discriminate].
Defined.

Lemma main_toc_only_witness :
  files (main unicode_space latin_alnum arabic_indic default_max_str_digits
           (mkArgs true (Some 2) false) (Some sample_toc) (Some five_pages))
  = []
  /\ result (main unicode_space latin_alnum arabic_indic
               default_max_str_digits (mkArgs true (Some 2) false)
               (Some sample_toc) (Some five_pages))
     = Some tt
  /\ length (stdout (main unicode_space latin_alnum arabic_indic
                       default_max_str_digits (mkArgs true (Some 2) false)
                       (Some sample_toc) (Some five_pages)))
     = 2%nat.
Proof.
  exact (main_toc_only unicode_space latin_alnum arabic_indic
           default_max_str_digits (mkArgs true (Some 2) false) sample_toc
           five_pages eq_refl).
Defined.

